(** * vscode-hg: the command centre of [src/commands.ts]

    A shallow embedding of [CommandCenter]: the diff-pair resolution
    ([getLeftResource], [getRightResource], [getTitle], [_openResource]),
    the commit helpers ([smartCommit], [commitWithAnyInput]), the branch
    command and the dispatch wrapper built by [createCommand].

    JavaScript strings are sequences of UTF-16 code units; asynchronous
    methods are computations over an explicit world (the SCM input box and
    the ordered trace of calls made to the host, the engine and the
    console) that end fulfilled or rejected. *)

From Stdlib Require Import List NArith Bool String Ascii Lia.
From Stdlib Require Import DecimalString.
Import ListNotations.

Set Implicit Arguments.

(** ** JavaScript strings *)

Module JS.

(** A code unit of a JavaScript string. *)
Definition char := N.

Definition jsstring := list char.

(** A string literal of the source (ASCII only) as code units. *)
Definition lit (s : string) : jsstring :=
  map N_of_ascii (list_ascii_of_string s).

(** [!!s]: a string is truthy when it is not empty. *)
Definition truthy (s : jsstring) : bool :=
  match s with [] => false | _ :: _ => true end.

(** [!!v] for [v : string | undefined]. *)
Definition truthy_opt (v : option jsstring) : bool :=
  match v with Some s => truthy s | None => false end.

(** [a || b] where [a : string | undefined]. *)
Definition or_else (a : option jsstring) (b : jsstring) : jsstring :=
  match a with
  | Some s => if truthy s then s else b
  | None => b
  end.

Fixpoint eqb (a b : jsstring) : bool :=
  match a, b with
  | [], [] => true
  | x :: a', y :: b' => N.eqb x y && eqb a' b'
  | _, _ => false
  end.

(** LineTerminator of ECMAScript: LF, CR, LS, PS. *)
Definition isLineTerminator (c : char) : bool :=
  (c =? 10)%N || (c =? 13)%N || (c =? 8232)%N || (c =? 8233)%N.

(** The class [\s]: WhiteSpace (TAB, VT, FF, SP, NBSP, ZWNBSP and the
    space separators of Unicode) and LineTerminator. *)
Definition isWhiteSpace (c : char) : bool :=
  (c =? 9)%N || (c =? 11)%N || (c =? 12)%N || (c =? 32)%N || (c =? 160)%N
  || (c =? 5760)%N || ((8192 <=? c)%N && (c <=? 8202)%N)
  || (c =? 8239)%N || (c =? 8287)%N || (c =? 12288)%N || (c =? 65279)%N
  || isLineTerminator c.

(** Canonicalize of a case-insensitive pattern, on the code units that can
    equal an ASCII pattern character: a code unit above 127 never
    canonicalizes to an ASCII one. *)
Definition canonicalize (c : char) : char :=
  if (97 <=? c)%N && (c <=? 122)%N then (c - 32)%N else c.

End JS.

Import JS.

(** ** Regular expressions

    The fragment of ECMAScript regular expressions that the literals of
    [commands.ts] use: alternatives of sequences of characters, classes,
    the anchors and a greedy starred class. *)

Module Regex.

Record flags := { ignoreCase : bool; multiline : bool }.

Inductive item :=
| Chr (c : char)                  (* a pattern character *)
| Cls (p : char -> bool)          (* a class: [\s], [.] *)
| Star (p : char -> bool)         (* a greedy starred class *)
| Bol                             (* ^ *)
| Eol.                            (* $ *)

Definition regex := list (list item).

Definition chr_matches (fl : flags) (pat x : char) : bool :=
  if ignoreCase fl then (canonicalize x =? canonicalize pat)%N
  else (x =? pat)%N.

(** [^]: the start of the input, or with [m] the position after a line
    terminator. [prev] is the code unit before the position. *)
Definition at_bol (fl : flags) (prev : option char) : bool :=
  match prev with
  | None => true
  | Some c => multiline fl && isLineTerminator c
  end.

(** [$]: the end of the input, or with [m] the position before a line
    terminator. *)
Definition at_eol (fl : flags) (s : jsstring) : bool :=
  match s with
  | [] => true
  | c :: _ => multiline fl && isLineTerminator c
  end.

(** A greedy starred class followed by [k]: the longest run first, then
    backtracking one code unit at a time. *)
Fixpoint star (p : char -> bool) (k : option char -> jsstring -> option nat)
  (prev : option char) (s : jsstring) : option nat :=
  match s with
  | x :: s' =>
      if p x then
        match star p k (Some x) s' with
        | Some n => Some (S n)
        | None => k prev s
        end
      else k prev s
  | [] => k prev []
  end.

(** The length of the match of a sequence at the head of [s]. *)
Fixpoint match_items (fl : flags) (items : list item)
  : option char -> jsstring -> option nat :=
  match items with
  | [] => fun _ _ => Some 0
  | it :: rest =>
      let k := match_items fl rest in
      match it with
      | Chr c => fun _ s =>
          match s with
          | x :: s' =>
              if chr_matches fl c x then option_map S (k (Some x) s')
              else None
          | [] => None
          end
      | Cls p => fun _ s =>
          match s with
          | x :: s' => if p x then option_map S (k (Some x) s') else None
          | [] => None
          end
      | Star p => star p k
      | Bol => fun prev s => if at_bol fl prev then k prev s else None
      | Eol => fun prev s => if at_eol fl s then k prev s else None
      end
  end.

(** The first alternative that matches wins. *)
Fixpoint match_here (fl : flags) (r : regex) (prev : option char)
  (s : jsstring) : option nat :=
  match r with
  | [] => None
  | alt :: r' =>
      match match_items fl alt prev s with
      | Some n => Some n
      | None => match_here fl r' prev s
      end
  end.

(** [r.test(s)] from a position: is there a match at some position? *)
Fixpoint test_from (fl : flags) (r : regex) (prev : option char)
  (s : jsstring) : bool :=
  match match_here fl r prev s with
  | Some _ => true
  | None =>
      match s with
      | [] => false
      | c :: s' => test_from fl r (Some c) s'
      end
  end.

Definition test (fl : flags) (r : regex) (s : jsstring) : bool :=
  test_from fl r None s.

(** [s.replace(r, repl)] without the [g] flag: the leftmost match only. *)
Fixpoint replace_from (fl : flags) (r : regex) (repl : jsstring)
  (prev : option char) (s : jsstring) : jsstring :=
  match match_here fl r prev s with
  | Some n => repl ++ skipn n s
  | None =>
      match s with
      | [] => []
      | c :: s' => c :: replace_from fl r repl (Some c) s'
      end
  end.

Definition replace (fl : flags) (r : regex) (repl s : jsstring) : jsstring :=
  replace_from fl r repl None s.

(** [s.replace(r, repl)] with the [g] flag: every match, left to right,
    the search resuming after the match (one code unit further after an
    empty match). [skip] counts the code units of the current match that
    are still to be dropped. *)
Fixpoint replaceAll_from (fl : flags) (r : regex) (repl : jsstring)
  (skip : nat) (prev : option char) (s : jsstring) : jsstring :=
  match s with
  | [] =>
      match skip with
      | O =>
          match match_here fl r prev [] with
          | Some _ => repl
          | None => []
          end
      | S _ => []
      end
  | c :: s' =>
      match skip with
      | S k => replaceAll_from fl r repl k (Some c) s'
      | O =>
          match match_here fl r prev s with
          | Some (S n) => repl ++ replaceAll_from fl r repl n (Some c) s'
          | Some O => repl ++ c :: replaceAll_from fl r repl 0 (Some c) s'
          | None => c :: replaceAll_from fl r repl 0 (Some c) s'
          end
      end
  end.

Definition replaceAll (fl : flags) (r : regex) (repl s : jsstring)
  : jsstring :=
  replaceAll_from fl r repl 0 None s.

(** The pattern characters of a literal. *)
Definition chars (s : string) : list item := map Chr (lit s).

End Regex.

Import Regex.

(** ** The data the command centre reads *)

(** [Uri] of the host, with its five components. *)
Record Uri := {
  scheme : jsstring;
  authority : jsstring;
  path : jsstring;
  query : jsstring;
  fragment : jsstring
}.

(** [uri.with({ scheme, query })]: the other components are kept. *)
Definition Uri_with (u : Uri) (new_scheme new_query : jsstring) : Uri :=
  {| scheme := new_scheme;
     authority := authority u;
     path := path u;
     query := new_query;
     fragment := fragment u |}.

(** Modelled from the spec: the enum [Status] of [./model], which is not
    under src/. The spec gives the closed set ADDED, DELETED, MODIFIED,
    UNTRACKED, IGNORED, CLEAN. *)
Inductive Status := ADDED | DELETED | MODIFIED | UNTRACKED | IGNORED | CLEAN.

(** [Resource] of [./model], through the three accessors that
    [commands.ts] reads. *)
Record Resource := {
  status : Status;
  resourceUri : Uri;
  original : Uri
}.

(** [CommitOptions] of [./model], as the commands build it. *)
Record CommitOptions := { all : bool }.

(** Modelled from the spec: the class [Model] of [./model], which is not
    under src/, through its resource groups: the working-directory group
    that [commands.ts] reads and the group of staged changes ("staged") that
    the spec names. *)
Record Model := {
  workingDirectoryGroup : list Resource;
  stagingGroup : list Resource
}.

(** Modelled from the spec: the error of [./hg], which is not under src/:
    a typed error with a machine-readable code and raw diagnostic text, both
    optional, the [message] of every JavaScript error, and the string that
    [String(err)] gives. *)
Record HgError := {
  hgErrorCode : option jsstring;
  stderr : option jsstring;
  message : option jsstring;
  toString : jsstring
}.

(** What is thrown, or what a promise is rejected with: any value of
    JavaScript. [Value e] is an object whose [stderr] and [message] are
    strings or falsy, a missing field being one that is falsy or, for the
    code, not a string; a primitive is such a value without fields, shown
    as its own text. [Untyped code shown] is an object whose
    [stderr || message] is a truthy value that is not a string and has no
    method [replace]: [code] is its [hgErrorCode] and [shown] is
    [String(err.stderr)] when [stderr] is that value. *)
Inductive Reason :=
| Undefined
| Null
| Value (e : HgError)
| Untyped (code : option jsstring) (shown : option jsstring).

(** The TypeError of the JavaScript engine with the text [text]. *)
Definition TypeError (text : jsstring) : HgError :=
  {| hgErrorCode := None;
     stderr := None;
     message := Some text;
     toString := lit "TypeError: " ++ text |}.

(** The texts of the TypeErrors that the engine throws: on reading a
    property of [undefined] and of [null], and on calling what is not a
    function. *)
Record Runtime := {
  property_of_undefined : jsstring;
  property_of_null : jsstring;
  not_a_function : jsstring
}.

(** ** The world and its trace *)

(** An argument of [commands.executeCommand]. *)
Inductive Arg :=
| AUri (u : Uri)
| AStr (s : jsstring).

(** What [console.error] is given. *)
Inductive Logged :=
| LText (s : jsstring)
| LError (r : Reason).

(** The calls that leave the command centre, in the order they are made. *)
Inductive Event :=
| ShowInformationMessage (msg : jsstring)
| ShowErrorMessage (msg : jsstring) (items : list jsstring)
| ShowInputBox (placeHolder prompt : jsstring)
| ConsoleError (what : Logged)
| ExecuteCommand (command : jsstring) (args : list Arg)
| SendTelemetryEvent (name : jsstring) (properties : list (jsstring * jsstring))
| MethodApply (key : jsstring)
| ModelCommit (msg : jsstring) (opts : CommitOptions)
| ModelGetCommitTemplate
| ModelBranch (name : jsstring)
| OutputChannelShow.

(** [inputBox] is [scm.inputBox.value]. *)
Record World := {
  inputBox : jsstring;
  trace : list Event
}.

Definition emit (e : Event) (w : World) : World :=
  {| inputBox := inputBox w; trace := trace w ++ [e] |}.

Definition set_inputBox (v : jsstring) (w : World) : World :=
  {| inputBox := v; trace := trace w |}.

(** How a promise settles. *)
Inductive Outcome (A : Type) :=
| Fulfilled (a : A)
| Rejected (r : Reason).

Arguments Fulfilled {A} a.
Arguments Rejected {A} r.

(** An [async] method: it runs from a world to a settled promise and the
    world it leaves. *)
Definition Async (A : Type) := World -> Outcome A * World.

Definition ret {A} (a : A) : Async A := fun w => (Fulfilled a, w).

Definition bind {A B} (m : Async A) (f : A -> Async B) : Async B :=
  fun w =>
    match m w with
    | (Fulfilled a, w') => f a w'
    | (Rejected e, w') => (Rejected e, w')
    end.

Declare Scope async_scope.
Delimit Scope async_scope with async.
Notation "x <- m ;; k" := (bind m (fun x => k))
  (at level 61, m at next level, right associativity) : async_scope.
Notation "m ;; k" := (bind m (fun _ => k))
  (at level 61, right associativity) : async_scope.
Open Scope async_scope.

(** A call whose result is not awaited or that cannot fail. *)
Definition call (e : Event) : Async unit := fun w => (Fulfilled tt, emit e w).

(** What the host and the engine answer. Every answer may depend on the
    world at the time of the call, so on everything that happened before. *)
Record Host := {
  (* window.showInputBox: the text, or undefined when dismissed *)
  showInputBox_reply : World -> option jsstring;
  (* window.showErrorMessage: the item picked, or undefined *)
  showErrorMessage_reply : World -> option jsstring;
  (* commands.executeCommand *)
  executeCommand_reply : World -> Outcome unit;
  (* model.commit *)
  commit_reply : World -> Outcome unit;
  (* model.getCommitTemplate *)
  getCommitTemplate_reply : World -> Outcome jsstring;
  (* model.branch *)
  branch_reply : World -> Outcome unit;
  (* uri.fsPath *)
  fsPath : Uri -> jsstring;
  (* path.basename *)
  basename : jsstring -> jsstring
}.

(** A call whose result is awaited: the event, then the answer. *)
Definition await {A} (e : Event) (reply : World -> Outcome A) : Async A :=
  fun w => let w' := emit e w in (reply w', w').

Definition await_value {A} (e : Event) (reply : World -> A) : Async A :=
  fun w => let w' := emit e w in (Fulfilled (reply w'), w').

(** [path.basename] of Node on POSIX, for a path without an extension
    argument: the last portion, trailing slashes dropped. *)
Fixpoint posix_basename_rev (matchedSlash : bool) (r : jsstring) (acc : jsstring)
  : jsstring :=
  match r with
  | [] => acc
  | c :: r' =>
      if (c =? 47)%N then
        if matchedSlash then posix_basename_rev true r' acc else acc
      else posix_basename_rev false r' (c :: acc)
  end.

Definition posix_basename (p : jsstring) : jsstring :=
  posix_basename_rev true (rev p) [].

(** A host that dismisses every prompt and whose engine always succeeds, on
    POSIX paths. *)
Definition quiet_host : Host :=
  {| showInputBox_reply := fun _ => None;
     showErrorMessage_reply := fun _ => None;
     executeCommand_reply := fun _ => Fulfilled tt;
     commit_reply := fun _ => Fulfilled tt;
     getCommitTemplate_reply := fun _ => Fulfilled [];
     branch_reply := fun _ => Fulfilled tt;
     fsPath := path;
     basename := posix_basename |}.

Definition empty_world : World := {| inputBox := []; trace := [] |}.

(** ** The command centre *)

Section CommandCenter.

Variable host : Host.

(** [localize(key, message)] with the default bundle. *)
Definition localize (key message : string) : jsstring := lit message.

(** *** Opening a resource *)

Definition getLeftResource (resource : Resource) : option Uri :=
  match status resource with
  | ADDED | UNTRACKED | IGNORED => None
  | _ => Some (Uri_with (original resource) (lit "hg") (lit "."))
  end.

Definition getRightResource (resource : Resource) : option Uri :=
  match status resource with
  | DELETED => Some (Uri_with (resourceUri resource) (lit "hg") (lit "."))
  | MODIFIED | UNTRACKED | IGNORED | ADDED => Some (resourceUri resource)
  | _ => None
  end.

Definition getTitle (resource : Resource) : jsstring :=
  let basename := basename host (fsPath host (resourceUri resource)) in
  match status resource with
  | MODIFIED => basename ++ lit " (Working Folder)"
  | _ => []
  end.

Definition _openResource (resource : Resource) : Async unit :=
  let title := getTitle resource in
  match getRightResource resource with
  | None => call (ConsoleError (LText (lit "oh no")))
  | Some right_ =>
      match getLeftResource resource with
      | None =>
          await (ExecuteCommand (lit "vscode.open") [AUri right_])
            (executeCommand_reply host)
      | Some left_ =>
          await (ExecuteCommand (lit "vscode.diff")
                   [AUri left_; AUri right_; AStr title])
            (executeCommand_reply host)
      end
  end.

(** *** Committing *)

(** The options [smartCommit] goes on with: the caller's, or by default
    [{ all: this.model.workingDirectoryGroup.resources.length === 0 }]. *)
Definition effectiveOptions (model : Model) (opts : option CommitOptions)
  : CommitOptions :=
  match opts with
  | Some o => o
  | None => {| all := Nat.eqb (List.length (workingDirectoryGroup model)) 0 |}
  end.

(** [this.model] is [model]: the commit commands are registered with the
    model check. *)
Definition smartCommit (model : Model)
  (getCommitMessage : Async (option jsstring)) (opts : option CommitOptions)
  : Async bool :=
  let opts := effectiveOptions model opts in
  if (Nat.eqb (List.length (workingDirectoryGroup model)) 0
      && Nat.eqb (List.length (workingDirectoryGroup model)) 0)
     || (negb (all opts) && Nat.eqb (List.length (workingDirectoryGroup model)) 0)
  then
    call (ShowInformationMessage
            (localize "no changes" "There are no changes to commit.")) ;;
    ret false
  else
    message <- getCommitMessage ;;
    match message with
    | Some msg =>
        if truthy msg then
          await (ModelCommit msg opts) (commit_reply host) ;;
          ret true
        else ret false
    | None => ret false
    end.

Definition commitWithAnyInput (model : Model) (opts : option CommitOptions)
  : Async unit :=
  fun w =>
    let message := inputBox w in
    let getCommitMessage : Async (option jsstring) :=
      if truthy message then ret (Some message)
      else
        await_value
          (ShowInputBox (localize "commit message" "Commit message")
             (localize "provide commit message"
                "Please provide a commit message"))
          (showInputBox_reply host) in
    (didCommit <- smartCommit model getCommitMessage opts ;;
     if truthy message && didCommit then
       template <- await ModelGetCommitTemplate
                     (getCommitTemplate_reply host) ;;
       (fun w' => (Fulfilled tt, set_inputBox template w'))
     else ret tt) w.

(** *** Branching *)

Definition g : flags := {| ignoreCase := false; multiline := false |}.

(** [/^\.|\/\.|\.\.|~|\^|:|\/$|\.lock$|\.lock\/|\\|\*|\s|^\s*$|\.$/] *)
Definition forbidden : regex :=
  [ Bol :: chars ".";
    chars "/.";
    chars "..";
    chars "~";
    chars "^";
    chars ":";
    chars "/" ++ [Eol];
    chars ".lock" ++ [Eol];
    chars ".lock/";
    [Chr 92%N];                      (* a backslash *)
    chars "*";
    [Cls isWhiteSpace];
    [Bol; Star isWhiteSpace; Eol];
    chars "." ++ [Eol] ].

Definition sanitize (result : jsstring) : jsstring :=
  replaceAll g forbidden (lit "-") result.

Definition branch : Async unit :=
  result <- await_value
              (ShowInputBox (localize "branch name" "Branch name")
                 (localize "provide branch name"
                    "Please provide a branch name"))
              (showInputBox_reply host) ;;
  match result with
  | Some r =>
      if truthy r then
        await (ModelBranch (sanitize r)) (branch_reply host)
      else ret tt
  | None => ret tt
  end.

(** *** The dispatch wrapper *)

Definition mi : flags := {| ignoreCase := true; multiline := true |}.

(** [/^error: /mi] *)
Definition error_prefix : regex := [ Bol :: chars "error: " ].

(** [.]: any code unit but a line terminator. *)
Definition dot (c : char) : bool := negb (isLineTerminator c).

(** [/^> husky.*$/mi] *)
Definition husky_line : regex :=
  [ Bol :: chars "> husky" ++ [Star dot; Eol] ].

(** [s.split(/[\r\n]/)] *)
Fixpoint split_lines (s : jsstring) : list jsstring :=
  match s with
  | [] => [[]]
  | c :: s' =>
      if (c =? 13)%N || (c =? 10)%N then [] :: split_lines s'
      else
        match split_lines s' with
        | l :: ls => (c :: l) :: ls
        | [] => [[c]]
        end
  end.

(** The [hint] of the default case: the first line that is not empty. *)
Definition hintOf (err : HgError) : option jsstring :=
  hd_error
    (filter truthy
       (split_lines
          (replace mi husky_line []
             (replace mi error_prefix []
                (or_else (stderr err)
                   (or_else (message err) (toString err))))))).

(** The [switch] on [err.hgErrorCode]. *)
Definition errorMessage (err : HgError) : jsstring :=
  let default :=
    match hintOf err with
    | Some hint => lit "Hg: " ++ hint        (* "Hg: {0}" *)
    | None => localize "hg error" "Hg error"
    end in
  match hgErrorCode err with
  | Some code =>
      if JS.eqb code (lit "DirtyWorkTree") then
        localize "clean repo"
          "Please clean your repository working tree before checkout."
      else default
  | None => default
  end.

Variable runtime : Runtime.

(** The message that the [switch] of the handler leaves, or the TypeError
    it throws: on [err.hgErrorCode] when [err] is [undefined] or [null],
    and in the default case on [replace] when the text is not a string. *)
Definition messageOf (err : Reason) : Outcome jsstring :=
  match err with
  | Undefined =>
      Rejected (Value (TypeError (property_of_undefined runtime)))
  | Null => Rejected (Value (TypeError (property_of_null runtime)))
  | Value e => Fulfilled (errorMessage e)
  | Untyped code _ =>
      if match code with
         | Some c => JS.eqb c (lit "DirtyWorkTree")
         | None => false
         end
      then
        Fulfilled
          (localize "clean repo"
             "Please clean your repository working tree before checkout.")
      else Rejected (Value (TypeError (not_a_function runtime)))
  end.

(** The handler given to [result.catch]. *)
Definition onRejected (err : Reason) : Async unit :=
  match messageOf err with
  | Rejected thrown => fun w => (Rejected thrown, w)
  | Fulfilled message =>
      if negb (truthy message) then
        call (ConsoleError (LError err))
      else
        let openOutputChannelChoice := localize "open hg log" "Open Hg Log" in
        choice <- await_value
                    (ShowErrorMessage message [openOutputChannelChoice])
                    (showErrorMessage_reply host) ;;
        match choice with
        | Some c =>
            if JS.eqb c openOutputChannelChoice then call OutputChannelShow
            else ret tt
        | None => ret tt
        end
  end.

(** What the wrapper does: it returns [undefined] when the model check
    stops it, it throws what the method throws before the method has
    returned, else it returns the promise of [result.catch]. *)
Inductive Returned :=
| ReturnedUndefined
| ReturnedPromise (o : Outcome unit)
| Threw (r : Reason).

(** What [method.apply(this, args)] does: the method returns, a promise
    that settles or a plain value, or it throws before it returns. An
    [async] method never throws. *)
Inductive Applied :=
| Returns (o : Outcome unit)
| Throws (r : Reason).

Variable Args : Type.

(** [this.model], bound or not. *)
Variable this_model : option Model.

(** The function [result] that [createCommand] builds for a registered
    command; [method.apply(this, args)] leaves [MethodApply key] in the
    trace before the method runs. What the method throws before it returns
    is thrown by [result]: [Promise.resolve] and [catch] are not reached. *)
Definition createCommand (id key : jsstring)
  (method : Args -> World -> Applied * World)
  (skipModelCheck : bool) (args : Args) : World -> Returned * World :=
  fun w =>
    if negb skipModelCheck
       && match this_model with Some _ => false | None => true end
    then
      (ReturnedUndefined,
       emit (ShowInformationMessage
               (localize "disabled"
                  "Hg is either disabled or not supported in this workspace"))
         w)
    else
      let w1 :=
        emit (SendTelemetryEvent (lit "hg.command") [(lit "command", id)]) w in
      match method args (emit (MethodApply key) w1) with
      | (Throws thrown, w2) => (Threw thrown, w2)
      | (Returns (Fulfilled v), w2) => (ReturnedPromise (Fulfilled v), w2)
      | (Returns (Rejected err), w2) =>
          let (o, w3) := onRejected err w2 in (ReturnedPromise o, w3)
      end.

End CommandCenter.

(** ** Reading a trace *)

Definition is_dialog (e : Event) : bool :=
  match e with
  | ShowInformationMessage _ | ShowErrorMessage _ _ => true
  | _ => false
  end.

Definition is_consoleError (e : Event) : bool :=
  match e with ConsoleError _ => true | _ => false end.

Definition is_telemetry (e : Event) : bool :=
  match e with SendTelemetryEvent _ _ => true | _ => false end.

Definition is_methodApply (e : Event) : bool :=
  match e with MethodApply _ => true | _ => false end.

Definition is_commit (e : Event) : bool :=
  match e with ModelCommit _ _ => true | _ => false end.

Definition is_getCommitTemplate (e : Event) : bool :=
  match e with ModelGetCommitTemplate => true | _ => false end.

Definition is_branch (e : Event) : bool :=
  match e with ModelBranch _ => true | _ => false end.

Definition is_executeCommand (e : Event) : bool :=
  match e with ExecuteCommand _ _ => true | _ => false end.

Definition count (p : Event -> bool) (t : list Event) : nat :=
  List.length (filter p t).

(** The read-only historical view of a reference at the revision ".". *)
Definition historical (u : Uri) : Uri := Uri_with u (lit "hg") (lit ".").

(** The statuses without a "before" side. *)
Definition no_before : list Status := [ADDED; UNTRACKED; IGNORED].

(** Sample resources. *)
Definition file_uri (p : string) : Uri :=
  {| scheme := lit "file"; authority := []; path := lit p;
     query := []; fragment := [] |}.

Definition resource_at (st : Status) (p : string) : Resource :=
  {| status := st; resourceUri := file_uri p; original := file_uri p |}.

(** A deleted resource whose original reference is another path. *)
Definition moved_deleted : Resource :=
  {| status := DELETED;
     resourceUri := file_uri "/repo/new.txt";
     original := file_uri "/repo/old.txt" |}.

(** The world in which the method of a dispatched command starts: the
    telemetry event is sent and the method applied. *)
Definition entered (id key : jsstring) (w : World) : World :=
  emit (MethodApply key)
    (emit (SendTelemetryEvent (lit "hg.command") [(lit "command", id)]) w).


(** An error whose diagnostic text is one line feed. *)
Definition blank_error : HgError :=
  {| hgErrorCode := None;
     stderr := Some [10%N];
     message := None;
     toString := lit "[object Object]" |}.

(** An [async] method seen from [method.apply]. *)
Definition async (m : Async unit) : World -> Applied * World :=
  fun w => let (o, w') := m w in (Returns o, w').

(** A method whose promise is rejected at once. *)
Definition rejecting_method (r : Reason) : unit -> World -> Applied * World :=
  fun _ => async (fun w => (Rejected r, w)).

Definition failing_method (err : HgError) : unit -> World -> Applied * World :=
  rejecting_method (Value err).

(** A method that is not [async] and throws. *)
Definition throwing_method (r : Reason) : unit -> World -> Applied * World :=
  fun _ w => (Throws r, w).

(** The texts of V8. *)
Definition v8 : Runtime :=
  {| property_of_undefined :=
       lit "Cannot read property 'hgErrorCode' of undefined";
     property_of_null := lit "Cannot read property 'hgErrorCode' of null";
     not_a_function := lit "(intermediate value).replace is not a function" |}.

(** A model with one change in the working directory and nothing staged. *)
Definition unstaged_only : Model :=
  {| workingDirectoryGroup := [resource_at MODIFIED "/repo/a.txt"];
     stagingGroup := [] |}.

Definition no_changes : Model :=
  {| workingDirectoryGroup := []; stagingGroup := [] |}.

(** A host whose engine gives the template "merge". *)
Definition template_host : Host :=
  {| showInputBox_reply := fun _ => Some (lit "typed");
     showErrorMessage_reply := fun _ => Some (lit "Open Hg Log");
     executeCommand_reply := fun _ => Fulfilled tt;
     commit_reply := fun _ => Fulfilled tt;
     getCommitTemplate_reply := fun _ => Fulfilled (lit "merge");
     branch_reply := fun _ => Fulfilled tt;
     fsPath := path;
     basename := posix_basename |}.

(** A host where the name "fix/.lock file" is entered. *)
Definition naming_host : Host :=
  {| showInputBox_reply := fun _ => Some (lit "fix/.lock file");
     showErrorMessage_reply := fun _ => None;
     executeCommand_reply := fun _ => Fulfilled tt;
     commit_reply := fun _ => Fulfilled tt;
     getCommitTemplate_reply := fun _ => Fulfilled [];
     branch_reply := fun _ => Fulfilled tt;
     fsPath := path;
     basename := posix_basename |}.

(** [Rewritten s out]: [out] is [s] where some stretches that are not empty
    have each become one hyphen, the other code units being kept. *)
Inductive Rewritten : jsstring -> jsstring -> Prop :=
| Rewritten_nil : Rewritten [] []
| Rewritten_keep (x : char) (s out : jsstring) :
    Rewritten s out -> Rewritten (x :: s) (x :: out)
| Rewritten_stretch (x : char) (seg s out : jsstring) :
    Rewritten s out -> Rewritten (x :: seg ++ s) (45%N :: out).

(** An item that cannot consume a hyphen. *)
Definition hyphen_free (it : item) : bool :=
  match it with
  | Chr c => negb (c =? 45)%N
  | Cls p | Star p => negb (p 45%N)
  | Bol | Eol => true
  end.

(** A sequence that consumes at least one code unit of an input that is not
    empty, without the [m] flag. *)
Definition consuming (alt : list item) : bool :=
  match alt with
  | Chr _ :: _ | Cls _ :: _ => true
  | Bol :: Chr _ :: _ | Bol :: Cls _ :: _ => true
  | [Bol; Star _; Eol] => true
  | _ => false
  end.

(** ** The commands that open and commit *)

(** What [getSCMResource] reads of the host: the uri of the document of
    [window.activeTextEditor], when there is one, and [uri.toString()]. *)
Record Editor := {
  activeTextEditor_uri : option Uri;
  uri_toString : Uri -> jsstring
}.

(** [uri.with({ scheme })]: the other components are kept. *)
Definition Uri_with_scheme (u : Uri) (new_scheme : jsstring) : Uri :=
  {| scheme := new_scheme;
     authority := authority u;
     path := path u;
     query := query u;
     fragment := fragment u |}.

Section OpenAndCommit.

Variable host : Host.
Variable editor : Editor.

(** [this.model] is [model]. *)
Definition getSCMResource (model : Model) (uri : option Uri)
  : option Resource :=
  let uri :=
    match uri with
    | Some u => Some u
    | None => activeTextEditor_uri editor
    end in
  match uri with
  | None => None
  | Some u =>
      let u :=
        if JS.eqb (scheme u) (lit "hg") then Uri_with_scheme u (lit "file")
        else u in
      if JS.eqb (scheme u) (lit "file") then
        let uriString := uri_toString editor u in
        let found :=
          filter (fun r => JS.eqb (uri_toString editor (resourceUri r))
                             uriString)
            (workingDirectoryGroup model) in
        match hd_error found with
        | Some r => Some r
        | None => hd_error found
        end
      else None
  end.

Definition openResource (resource : Resource) : Async unit :=
  _openResource host resource.

Definition openFile (resource : option Resource) : Async unit :=
  match resource with
  | None => ret tt
  | Some resource =>
      await (ExecuteCommand (lit "vscode.open") [AUri (resourceUri resource)])
        (executeCommand_reply host)
  end.

Definition openChange (resource : option Resource) : Async unit :=
  match resource with
  | None => ret tt
  | Some resource => _openResource host resource
  end.

Definition openFileFromUri (model : Model) (uri : option Uri) : Async unit :=
  match getSCMResource model uri with
  | None => ret tt
  | Some resource =>
      await (ExecuteCommand (lit "vscode.open") [AUri (resourceUri resource)])
        (executeCommand_reply host)
  end.

Definition openChangeFromUri (model : Model) (uri : option Uri)
  : Async unit :=
  match getSCMResource model uri with
  | None => ret tt
  | Some resource => _openResource host resource
  end.

Definition commit (model : Model) : Async unit :=
  commitWithAnyInput host model None.

(** [async () => scm.inputBox.value] *)
Definition inputBox_value : Async (option jsstring) :=
  fun w => (Fulfilled (Some (inputBox w)), w).

Definition commitWithInput (model : Model) : Async unit :=
  didCommit <- smartCommit host model inputBox_value None ;;
  if didCommit : bool then
    template <- await ModelGetCommitTemplate (getCommitTemplate_reply host) ;;
    (fun w' => (Fulfilled tt, set_inputBox template w'))
  else ret tt.

Definition commitStaged (model : Model) : Async unit :=
  commitWithAnyInput host model (Some {| all := false |}).

Definition commitAll (model : Model) : Async unit :=
  commitWithAnyInput host model (Some {| all := true |}).

(** [showOutput] returns nothing; the wrapper resolves it. *)
Definition showOutput : Async unit := call OutputChannelShow.

End OpenAndCommit.

Definition is_showInputBox (e : Event) : bool :=
  match e with ShowInputBox _ _ => true | _ => false end.

Definition is_outputChannelShow (e : Event) : bool :=
  match e with OutputChannelShow => true | _ => false end.

(** A code unit that [split(/[\r\n]/)] cuts at. *)
Definition is_break (c : char) : bool := (c =? 13)%N || (c =? 10)%N.

(** An editor on the document [/repo/a.txt] that prints a uri as scheme,
    colon, path, and the query after a question mark when there is one. *)
Definition print_uri (u : Uri) : jsstring :=
  scheme u ++ lit ":" ++ path u
  ++ (if truthy (query u) then lit "?" ++ query u else []).

Definition sample_editor : Editor :=
  {| activeTextEditor_uri := Some (file_uri "/repo/a.txt");
     uri_toString := print_uri |}.

Definition two_changes : Model :=
  {| workingDirectoryGroup :=
       [resource_at ADDED "/repo/b.txt"; resource_at MODIFIED "/repo/a.txt"];
     stagingGroup := [] |}.

(** A host whose engine refuses to commit. *)
Definition commit_failure : HgError :=
  {| hgErrorCode := None;
     stderr := Some (lit "abort: nothing changed");
     message := None;
     toString := lit "Error" |}.

Definition refusing_host : Host :=
  {| showInputBox_reply := fun _ => Some (lit "typed");
     showErrorMessage_reply := fun _ => None;
     executeCommand_reply := fun _ => Fulfilled tt;
     commit_reply := fun _ => Rejected (Value commit_failure);
     getCommitTemplate_reply := fun _ => Fulfilled (lit "merge");
     branch_reply := fun _ => Fulfilled tt;
     fsPath := path;
     basename := posix_basename |}.

(** ** The commands on the rest of the host and of the engine *)

Module Hg.

(** Modelled from the spec: the enum [RefType] of [./hg], which is not
    under src/, with the three kinds of ref that the spec names. *)
Inductive RefType := Branch | Tag | RemoteHead.

(** [Ref] of [./hg]: [name] and [commit] may be missing. *)
Record Ref := {
  type : RefType;
  name : option jsstring;
  commit : option jsstring
}.

(** A configured path of the repository, as [pushTo] reads it. *)
Record Path := { path_name : jsstring; url : jsstring }.

(** The commit that [model.getCommit] gives. *)
Record Commit := { message : jsstring }.

End Hg.

(** The groups a resource can be in. *)
Inductive ResourceGroup := WorkingDirectoryGroup | StagingGroup | MergeGroup.

(** A [SourceControlResourceState] handed over by the host: a [Resource] of
    this extension or a state of another provider. *)
Inductive ResourceState :=
| OfResource (r : Resource)
| Foreign (uri : Uri).

(** What the commands read of [this.model] besides the groups. *)
Record Repository := {
  groups : Model;
  paths : list Hg.Path;
  refs : list Hg.Ref;
  parent : option Hg.Ref
}.

(** The calls that these commands make, in the order they are made. *)
Inductive Call :=
| ShowWarningMessage (msg : jsstring) (modal : bool) (items : list jsstring)
| ShowInformationMessageItems (msg : jsstring) (items : list jsstring)
| ShowInputBoxPrompt (prompt : jsstring) (value : option jsstring)
| ShowQuickPick (picks : list (jsstring * jsstring)) (placeHolder : jsstring)
| SetStatusBarMessage (msg : jsstring)
| SendTelemetry (name : jsstring) (properties : list (jsstring * jsstring))
    (measures : list (jsstring * nat))
| ExecuteOpenFolder (repositoryPath : jsstring)
| HgClone (url parentPath : jsstring)
| ModelStatus
| ModelInit
| ModelStage (resources : list Resource)
| ModelUnstage (resources : list Resource)
| ModelClean (resources : list Resource)
| ModelCheckout (ref : jsstring)
| ModelPull
| ModelPush (remote : option jsstring)
| ModelGetCommit (ref : jsstring)
| ModelReset (ref : jsstring).

(** [box] is [scm.inputBox.value]. *)
Record Desk := {
  box : jsstring;
  calls : list Call
}.

Definition note (c : Call) (d : Desk) : Desk :=
  {| box := box d; calls := calls d ++ [c] |}.

Definition set_box (v : jsstring) (d : Desk) : Desk :=
  {| box := v; calls := calls d |}.

(** An [async] method over the desk. *)
Definition Action (A : Type) := Desk -> Outcome A * Desk.

Definition done {A} (a : A) : Action A := fun d => (Fulfilled a, d).

Definition andThen {A B} (m : Action A) (f : A -> Action B) : Action B :=
  fun d =>
    match m d with
    | (Fulfilled a, d') => f a d'
    | (Rejected e, d') => (Rejected e, d')
    end.

Declare Scope action_scope.
Delimit Scope action_scope with action.
Notation "x <~ m ;; k" := (andThen m (fun x => k))
  (at level 61, m at next level, right associativity) : action_scope.
Notation "m ~~ k" := (andThen m (fun _ => k))
  (at level 61, right associativity) : action_scope.

(** What the host and the engine answer on the desk; [model_now] is
    [this.model] as it is when it is read. *)
Record Backend := {
  model_now : Desk -> Repository;
  (* s.resourceGroup *)
  resourceGroup : Resource -> ResourceGroup;
  (* window.showWarningMessage, window.showInformationMessage: the item *)
  showMessage_reply : Desk -> option jsstring;
  (* window.showInputBox *)
  showInputBoxPrompt_reply : Desk -> option jsstring;
  (* window.showQuickPick: the position of the item picked *)
  showQuickPick_reply : Desk -> option nat;
  (* hg.clone: the path of the repository *)
  clone_reply : Desk -> Outcome jsstring;
  (* the operations of the model without a result *)
  model_reply : Desk -> Outcome unit;
  (* model.getCommit *)
  getCommit_reply : Desk -> Outcome Hg.Commit;
  (* os.homedir() *)
  homedir : jsstring;
  (* workspace.getConfiguration('hg').get('updateType') *)
  updateType : option jsstring
}.

(** A call that is not awaited. *)
Definition fire (c : Call) : Action unit := fun d => (Fulfilled tt, note c d).

(** A call that is awaited. *)
Definition ask {A} (c : Call) (reply : Desk -> Outcome A) : Action A :=
  fun d => let d' := note c d in (reply d', d').

Definition ask_value {A} (c : Call) (reply : Desk -> A) : Action A :=
  fun d => let d' := note c d in (Fulfilled (reply d'), d').

(** [String(n)] for a count. *)
Definition decimal (n : nat) : jsstring :=
  lit (NilZero.string_of_uint (Nat.to_uint n)).

(** The kinds of item of the pick list of [update]. *)
Inductive ItemClass := CheckoutItem | CheckoutTagItem | CheckoutRemoteHeadItem.

Record Item := { class : ItemClass; ref : Hg.Ref }.

(** The lengths that the items of a sequence consume in a match, for the
    groups of [exec]. *)
Fixpoint star_lens (p : char -> bool)
  (k : option char -> jsstring -> option (list nat))
  (prev : option char) (s : jsstring) : option (nat * list nat) :=
  match s with
  | x :: s' =>
      if p x then
        match star_lens p k (Some x) s' with
        | Some (n, ls) => Some (S n, ls)
        | None => option_map (pair 0) (k prev s)
        end
      else option_map (pair 0) (k prev s)
  | [] => option_map (pair 0) (k prev [])
  end.

Fixpoint match_lens (fl : flags) (items : list item)
  : option char -> jsstring -> option (list nat) :=
  match items with
  | [] => fun _ _ => Some []
  | it :: rest =>
      let k := match_lens fl rest in
      match it with
      | Chr c => fun _ s =>
          match s with
          | x :: s' =>
              if chr_matches fl c x then option_map (cons 1) (k (Some x) s')
              else None
          | [] => None
          end
      | Cls p => fun _ s =>
          match s with
          | x :: s' => if p x then option_map (cons 1) (k (Some x) s') else None
          | [] => None
          end
      | Star p => fun prev s =>
          option_map (fun nl => fst nl :: snd nl) (star_lens p k prev s)
      | Bol => fun prev s =>
          if at_bol fl prev then option_map (cons 0) (k prev s) else None
      | Eol => fun prev s =>
          if at_eol fl s then option_map (cons 0) (k prev s) else None
      end
  end.

(** [r.exec(s)] for one sequence: the position of the first match and the
    lengths of its items. *)
Fixpoint exec_from (fl : flags) (items : list item) (prev : option char)
  (s : jsstring) : option (nat * list nat) :=
  match match_lens fl items prev s with
  | Some ls => Some (0, ls)
  | None =>
      match s with
      | [] => None
      | c :: s' =>
          option_map (fun il => (S (fst il), snd il))
            (exec_from fl items (Some c) s')
      end
  end.

(** The text of the group made of the items from [first] on, [size] of
    them. *)
Definition group_text (s : jsstring) (found : nat * list nat)
  (first size : nat) : jsstring :=
  firstn (list_sum (firstn size (skipn first (snd found))))
    (skipn (fst found + list_sum (firstn first (snd found))) s).

(** A pattern without flags. *)
Definition noflags : flags := {| ignoreCase := false; multiline := false |}.

(** [[^/]] *)
Definition notSlash (c : char) : bool := negb (c =? 47)%N.

(** The pattern of [CheckoutRemoteHeadItem.treeish]: the start, one or more
    code units that are not a slash, a slash, and as group 1 any code units
    but line terminators up to the end. The group is the fifth item. *)
Definition remote_name : list item :=
  [Bol; Cls notSlash; Star notSlash; Chr 47%N; Star dot; Eol].

Definition shortCommit (i : Item) : jsstring :=
  firstn 8 (or_else (Hg.commit (ref i)) []).

Definition treeish (i : Item) : option jsstring :=
  match class i with
  | CheckoutRemoteHeadItem =>
      match Hg.name (ref i) with
      | Some n =>
          if truthy n then
            match exec_from noflags remote_name None n with
            | Some found => Some (group_text n found 4 1)
            | None => Some n
            end
          else None
      | None => None
      end
  | _ => Hg.name (ref i)
  end.

Definition label (i : Item) : jsstring :=
  or_else (Hg.name (ref i)) (shortCommit i).

Definition description (i : Item) : jsstring :=
  match class i with
  | CheckoutItem => shortCommit i
  | CheckoutTagItem => lit "Tag at " ++ shortCommit i
  | CheckoutRemoteHeadItem => lit "Remote branch at " ++ shortCommit i
  end.

Open Scope action_scope.

Section Repository.

Variable host : Host.
Variable editor : Editor.
Variable backend : Backend.

(** [CheckoutItem.run] *)
Definition run (i : Item) : Action unit :=
  match treeish i with
  | Some r =>
      if truthy r then ask (ModelCheckout r) (model_reply backend)
      else done tt
  | None => done tt
  end.

Definition refresh : Action unit := ask ModelStatus (model_reply backend).

Definition init : Action unit := ask ModelInit (model_reply backend).

(** The resources among the states whose group passes. *)
Definition resources_in (pass : ResourceGroup -> bool)
  (resourceStates : list ResourceState) : list Resource :=
  flat_map
    (fun s =>
       match s with
       | OfResource r => if pass (resourceGroup backend r) then [r] else []
       | Foreign _ => []
       end)
    resourceStates.

(** The states a command works on: the ones given, else the resource of the
    active editor. *)
Definition states_or_active (d : Desk) (resourceStates : list ResourceState)
  : option (list ResourceState) :=
  match resourceStates with
  | [] =>
      match getSCMResource editor (groups (model_now backend d)) None with
      | None => None
      | Some resource => Some [OfResource resource]
      end
  | _ :: _ => Some resourceStates
  end.

Definition stage (resourceStates : list ResourceState) : Action unit :=
  fun d =>
    match states_or_active d resourceStates with
    | None => (Fulfilled tt, d)
    | Some resourceStates =>
        match resources_in
                (fun gr => match gr with
                           | WorkingDirectoryGroup | MergeGroup => true
                           | StagingGroup => false
                           end) resourceStates with
        | [] => (Fulfilled tt, d)
        | resources => ask (ModelStage resources) (model_reply backend) d
        end
    end.

Definition stageAll : Action unit :=
  ask (ModelStage []) (model_reply backend).

Definition unstage (resourceStates : list ResourceState) : Action unit :=
  fun d =>
    match states_or_active d resourceStates with
    | None => (Fulfilled tt, d)
    | Some resourceStates =>
        match resources_in
                (fun gr => match gr with
                           | StagingGroup => true
                           | _ => false
                           end) resourceStates with
        | [] => (Fulfilled tt, d)
        | resources => ask (ModelUnstage resources) (model_reply backend) d
        end
    end.

Definition unstageAll : Action unit :=
  ask (ModelUnstage []) (model_reply backend).

Definition discard : jsstring := lit "Discard Changes".

Definition clean (resourceStates : list ResourceState) : Action unit :=
  fun d =>
    match states_or_active d resourceStates with
    | None => (Fulfilled tt, d)
    | Some resourceStates =>
        match resources_in
                (fun gr => match gr with
                           | WorkingDirectoryGroup => true
                           | _ => false
                           end) resourceStates with
        | [] => (Fulfilled tt, d)
        | first :: others =>
            let resources := first :: others in
            let message :=
              match others with
              | [] =>
                  lit "Are you sure you want to discard changes in "
                  ++ basename host (fsPath host (resourceUri first))
                  ++ lit "?"
              | _ :: _ =>
                  lit "Are you sure you want to discard changes in "
                  ++ decimal (List.length resources) ++ lit " files?"
              end in
            (pick <~ ask_value (ShowWarningMessage message true [discard])
                       (showMessage_reply backend) ;;
             match pick with
             | Some p =>
                 if JS.eqb p discard then
                   ask (ModelClean resources) (model_reply backend)
                 else done tt
             | None => done tt
             end) d
        end
    end.

Definition cleanAll : Action unit :=
  pick <~ ask_value
            (ShowWarningMessage
               (lit "Are you sure you want to discard ALL changes?") true
               [discard])
            (showMessage_reply backend) ;;
  match pick with
  | Some p =>
      if JS.eqb p discard then
        fun d =>
          ask (ModelClean
                 (workingDirectoryGroup (groups (model_now backend d))))
            (model_reply backend) d
      else done tt
  | None => done tt
  end.

Definition undoCommit : Action unit :=
  fun d =>
    match parent (model_now backend d) with
    | None => (Fulfilled tt, d)
    | Some HEAD =>
        if truthy_opt (Hg.commit HEAD) then
          (commit <~ ask (ModelGetCommit (lit "HEAD"))
                       (getCommit_reply backend) ;;
           ask (ModelReset (lit "HEAD~")) (model_reply backend) ~~
           (fun d' => (Fulfilled tt, set_box (Hg.message commit) d'))) d
        else (Fulfilled tt, d)
    end.

Definition is_type (t : Hg.RefType) (r : Hg.Ref) : bool :=
  match t, Hg.type r with
  | Hg.Branch, Hg.Branch | Hg.Tag, Hg.Tag
  | Hg.RemoteHead, Hg.RemoteHead => true
  | _, _ => false
  end.

(** The pick list of [update]. *)
Definition update_picks (d : Desk) : list Item :=
  let checkoutType :=
    match updateType backend with
    | Some t => if truthy t then t else lit "all"
    | None => lit "all"
    end in
  let includeTags :=
    JS.eqb checkoutType (lit "all") || JS.eqb checkoutType (lit "tags") in
  let heads :=
    map (fun r => {| class := CheckoutItem; ref := r |})
      (filter (is_type Hg.Branch) (refs (model_now backend d))) in
  let tags :=
    map (fun r => {| class := CheckoutTagItem; ref := r |})
      (if includeTags
       then filter (is_type Hg.Tag) (refs (model_now backend d))
       else []) in
  heads ++ tags.

Definition update : Action unit :=
  fun d =>
    let picks := update_picks d in
    (choice <~ ask_value
                 (ShowQuickPick (map (fun i => (label i, description i)) picks)
                    (lit "Select a branch/tag to update to"))
                 (showQuickPick_reply backend) ;;
     match choice with
     | Some position =>
         match nth_error picks position with
         | Some item => run item
         | None => done tt
         end
     | None => done tt
     end) d.

Definition pull : Action unit :=
  fun d =>
    match paths (model_now backend d) with
    | [] =>
        fire (ShowWarningMessage
                (lit "Your repository has no paths configured to pull from.")
                false []) d
    | _ :: _ => ask ModelPull (model_reply backend) d
    end.

Definition push : Action unit :=
  fun d =>
    match paths (model_now backend d) with
    | [] =>
        fire (ShowWarningMessage
                (lit "Your repository has no paths configured to push to.")
                false []) d
    | _ :: _ => ask (ModelPush None) (model_reply backend) d
    end.

Definition pushTo : Action unit :=
  fun d =>
    match paths (model_now backend d) with
    | [] =>
        fire (ShowWarningMessage
                (lit "Your repository has no paths configured to push to.")
                false []) d
    | first :: others =>
        let picks :=
          map (fun p => (Hg.path_name p, Hg.url p)) (first :: others) in
        (pick <~ ask_value
                   (ShowQuickPick picks (lit "Pick a remote to push to:"))
                   (showQuickPick_reply backend) ;;
         match pick with
         | Some position =>
             match nth_error picks position with
             | Some chosen => fire (ModelPush (Some (fst chosen)))
             | None => done tt
             end
         | None => done tt
         end) d
    end.

(** [/already exists and is not an empty directory/] *)
Definition directory_not_empty : regex :=
  [chars "already exists and is not an empty directory"].

Definition clone_telemetry (outcome : string) : Call :=
  SendTelemetry (lit "clone") [(lit "outcome", lit outcome)] [].

Definition clone : Action unit :=
  url <~ ask_value (ShowInputBoxPrompt (lit "Repository URL") None)
           (showInputBoxPrompt_reply backend) ;;
  if negb (truthy_opt url) then fire (clone_telemetry "no_URL")
  else
    parentPath <~ ask_value
                    (ShowInputBoxPrompt (lit "Parent Directory")
                       (Some (homedir backend)))
                    (showInputBoxPrompt_reply backend) ;;
    if negb (truthy_opt parentPath) then fire (clone_telemetry "no_directory")
    else
      fun d =>
        let d1 :=
          note (HgClone (or_else url []) (or_else parentPath [])) d in
        let d2 := note (SetStatusBarMessage (lit "Cloning hg repository...")) d1
        in
        match clone_reply backend d1 with
        | Fulfilled repositoryPath =>
            (result <~ ask_value
                         (ShowInformationMessageItems
                            (lit "Would you like to open the cloned repository?")
                            [lit "Open Repository"])
                         (showMessage_reply backend) ;;
             let openFolder :=
               match result with
               | Some r => JS.eqb r (lit "Open Repository")
               | None => false
               end in
             fire (SendTelemetry (lit "clone")
                     [(lit "outcome", lit "success")]
                     [(lit "openFolder", if openFolder then 1 else 0)]) ~~
             (if openFolder then fire (ExecuteOpenFolder repositoryPath)
              else done tt)) d2
        | Rejected err =>
            let text :=
              match err with
              | Value e =>
                  match stderr e with
                  | Some t => if truthy t then t else []
                  | None => []
                  end
              | Untyped _ (Some shown) => shown
              | Untyped _ None | Undefined | Null => []
              end in
            ((if test noflags directory_not_empty text
              then fire (clone_telemetry "directory_not_empty")
              else fire (clone_telemetry "error")) ~~
             (fun d' => (Rejected err, d'))) d2
        end.

End Repository.

Close Scope action_scope.

(** Reading the calls on a desk. *)
Definition calls_since (d d' : Desk) : list Call :=
  skipn (List.length (calls d)) (calls d').

Definition is_cloneTelemetry (c : Call) : bool :=
  match c with
  | SendTelemetry n _ _ => JS.eqb n (lit "clone")
  | _ => false
  end.

Definition count_calls (p : Call -> bool) (l : list Call) : nat :=
  List.length (filter p l).

(** Sample repositories and backends. *)
Definition sample_repository : Repository :=
  {| groups := two_changes;
     paths := [{| Hg.path_name := lit "default";
                  Hg.url := lit "https://example.org/repo" |}];
     refs := [{| Hg.type := Hg.Tag; Hg.name := Some (lit "v1");
                 Hg.commit := Some (lit "89abcdef01234567") |};
              {| Hg.type := Hg.Branch; Hg.name := Some (lit "default");
                 Hg.commit := Some (lit "0123456789abcdef") |}];
     parent := Some {| Hg.type := Hg.Branch; Hg.name := Some (lit "default");
                       Hg.commit := Some (lit "0123456789abcdef") |} |}.

Definition bare_repository : Repository :=
  {| groups := no_changes; paths := []; refs := []; parent := None |}.

Definition sample_backend : Backend :=
  {| model_now := fun _ => sample_repository;
     resourceGroup := fun _ => WorkingDirectoryGroup;
     showMessage_reply := fun _ => Some (lit "Discard Changes");
     showInputBoxPrompt_reply := fun _ => Some (lit "/srv/hg");
     showQuickPick_reply := fun _ => Some 0;
     clone_reply := fun _ => Fulfilled (lit "/srv/hg/repo");
     model_reply := fun _ => Fulfilled tt;
     getCommit_reply := fun _ => Fulfilled {| Hg.message := lit "first" |};
     homedir := lit "/home/user";
     updateType := None |}.

Definition failing_backend : Backend :=
  {| model_now := fun _ => sample_repository;
     resourceGroup := fun _ => WorkingDirectoryGroup;
     showMessage_reply := fun _ => None;
     showInputBoxPrompt_reply := fun _ => Some (lit "/srv/hg");
     showQuickPick_reply := fun _ => Some 0;
     clone_reply := fun _ => Rejected (Value commit_failure);
     model_reply := fun _ => Rejected (Value commit_failure);
     getCommit_reply := fun _ => Fulfilled {| Hg.message := lit "first" |};
     homedir := lit "/home/user";
     updateType := Some (lit "branches") |}.

Definition bare_backend : Backend :=
  {| model_now := fun _ => bare_repository;
     resourceGroup := fun _ => WorkingDirectoryGroup;
     showMessage_reply := fun _ => None;
     showInputBoxPrompt_reply := fun _ => None;
     showQuickPick_reply := fun _ => None;
     clone_reply := fun _ => Fulfilled [];
     model_reply := fun _ => Fulfilled tt;
     getCommit_reply := fun _ => Fulfilled {| Hg.message := [] |};
     homedir := lit "/home/user";
     updateType := None |}.

Definition empty_desk : Desk := {| box := []; calls := [] |}.



(** ** Properties of the diff-pair resolution *)

Lemma count_app (p : Event -> bool) (a b : list Event) :
  count p (a ++ b) = count p a + count p b.
Proof.
  unfold count. now rewrite filter_app, length_app.
Qed.

Lemma trace_emit (e : Event) (w : World) : trace (emit e w) = trace w ++ [e].
Proof. reflexivity. Qed.

Lemma inputBox_emit (e : Event) (w : World) : inputBox (emit e w) = inputBox w.
Proof. reflexivity. Qed.

(** C4: the left reference is none exactly for ADDED, UNTRACKED and IGNORED;
    for every other status it is the historical view of the resource's
    original reference: scheme [hg], the original path, revision ".". *)
Theorem getLeftResource_spec (r : Resource) :
  (getLeftResource r = None <-> In (status r) no_before)
  /\ (~ In (status r) no_before ->
      getLeftResource r = Some (historical (original r))
      /\ path (historical (original r)) = path (original r)
      /\ query (historical (original r)) = lit ".").
Proof.
  unfold getLeftResource, no_before. split.
  - destruct (status r); simpl; split; intros H;
      try discriminate; try tauto; intuition discriminate.
  - intros H. destruct (status r); simpl in *;
      try (exfalso; tauto); auto.
Qed.

Lemma getLeftResource_spec_witness :
  getLeftResource (resource_at MODIFIED "/repo/a.txt")
  = Some (historical (file_uri "/repo/a.txt")).
Proof.
  apply (proj2 (getLeftResource_spec (resource_at MODIFIED "/repo/a.txt"))).
  simpl. intuition discriminate.
Defined.

(** The scenarios of an added and of a deleted file. *)
Example added_pair :
  getLeftResource (resource_at ADDED "/repo/b.txt") = None
  /\ getRightResource (resource_at ADDED "/repo/b.txt")
     = Some (file_uri "/repo/b.txt")
  /\ getTitle quiet_host (resource_at ADDED "/repo/b.txt") = [].
Proof. repeat split. Qed.

Example deleted_pair :
  getLeftResource (resource_at DELETED "/repo/c.txt")
  = Some (historical (file_uri "/repo/c.txt"))
  /\ getRightResource (resource_at DELETED "/repo/c.txt")
     = Some (historical (file_uri "/repo/c.txt"))
  /\ getTitle quiet_host (resource_at DELETED "/repo/c.txt") = [].
Proof. repeat split. Qed.

(** A deleted resource read under another path has two different sides:
    they are not both one historical reference. *)
Lemma deleted_sides_differ :
  ~ (exists h : Uri,
        getLeftResource moved_deleted = Some h
        /\ getRightResource moved_deleted = Some h).
Proof.
  intros [h [Hl Hr]]. simpl in Hl, Hr.
  rewrite <- Hl in Hr. discriminate Hr.
Qed.

(** C5, as the code has it: for DELETED the left side is the historical view
    of the original reference and the right side the historical view of the
    resource's own reference, so that the two are equal when both references
    are the same, and the title is empty; for MODIFIED the left side is the
    historical view of the original reference, the right side the content
    on disk, and the title the basename followed by " (Working Folder)". *)
Theorem deleted_and_modified_pairs (host : Host) (r : Resource) :
  (status r = DELETED ->
   getLeftResource r = Some (historical (original r))
   /\ getRightResource r = Some (historical (resourceUri r))
   /\ getTitle host r = []
   /\ (original r = resourceUri r -> getLeftResource r = getRightResource r))
  /\ (status r = MODIFIED ->
      getLeftResource r = Some (historical (original r))
      /\ getRightResource r = Some (resourceUri r)
      /\ getTitle host r
         = basename host (fsPath host (resourceUri r))
           ++ lit " (Working Folder)").
Proof.
  unfold getLeftResource, getRightResource, getTitle.
  split; intros St; rewrite St; repeat split.
  intros Same. now rewrite Same.
Qed.

Lemma deleted_and_modified_pairs_witness :
  (getLeftResource (resource_at DELETED "/repo/c.txt")
   = getRightResource (resource_at DELETED "/repo/c.txt"))
  /\ getTitle quiet_host (resource_at MODIFIED "/repo/a.txt")
     = lit "a.txt (Working Folder)".
Proof.
  split.
  - apply (proj1 (deleted_and_modified_pairs quiet_host
                    (resource_at DELETED "/repo/c.txt")));
      reflexivity.
  - apply (proj2 (deleted_and_modified_pairs quiet_host
                    (resource_at MODIFIED "/repo/a.txt")) eq_refl).
Defined.

(** C6: without a right side only [console.error] is reached and no command
    of the host is executed; with a right side only, [vscode.open] shows it
    alone; with both sides, [vscode.diff] compares them under the title of
    [getTitle]. *)
Theorem openResource_cases (host : Host) (r : Resource) (w : World) :
  (getRightResource r = None ->
   _openResource host r w
   = (Fulfilled tt, emit (ConsoleError (LText (lit "oh no"))) w)
   /\ count is_executeCommand (trace (snd (_openResource host r w)))
      = count is_executeCommand (trace w))
  /\ (forall right_ : Uri,
        getRightResource r = Some right_ ->
        getLeftResource r = None ->
        trace (snd (_openResource host r w))
        = trace w ++ [ExecuteCommand (lit "vscode.open") [AUri right_]])
  /\ (forall left_ right_ : Uri,
        getRightResource r = Some right_ ->
        getLeftResource r = Some left_ ->
        trace (snd (_openResource host r w))
        = trace w ++ [ExecuteCommand (lit "vscode.diff")
                        [AUri left_; AUri right_; AStr (getTitle host r)]]).
Proof.
  unfold _openResource. split; [| split].
  - intros Hr. rewrite Hr. split; [reflexivity |].
    unfold call, snd. rewrite trace_emit, count_app.
    unfold count at 2. simpl. lia.
  - intros rt Hr Hl. rewrite Hr, Hl. reflexivity.
  - intros lf rt Hr Hl. rewrite Hr, Hl. reflexivity.
Qed.

Lemma openResource_cases_witness :
  _openResource quiet_host (resource_at CLEAN "/repo/d.txt") empty_world
  = (Fulfilled tt, emit (ConsoleError (LText (lit "oh no"))) empty_world)
  /\ trace (snd (_openResource quiet_host (resource_at ADDED "/repo/b.txt")
                   empty_world))
     = [ExecuteCommand (lit "vscode.open") [AUri (file_uri "/repo/b.txt")]]
  /\ trace (snd (_openResource quiet_host (resource_at MODIFIED "/repo/a.txt")
                   empty_world))
     = [ExecuteCommand (lit "vscode.diff")
          [AUri (historical (file_uri "/repo/a.txt"));
           AUri (file_uri "/repo/a.txt");
           AStr (lit "a.txt (Working Folder)")]].
Proof.
  split; [| split].
  - apply (proj1 (openResource_cases quiet_host
                    (resource_at CLEAN "/repo/d.txt") empty_world)).
    reflexivity.
  - apply (proj1 (proj2 (openResource_cases quiet_host
                           (resource_at ADDED "/repo/b.txt") empty_world)));
      reflexivity.
  - apply (proj2 (proj2 (openResource_cases quiet_host
                           (resource_at MODIFIED "/repo/a.txt") empty_world))
             (historical (file_uri "/repo/a.txt")) (file_uri "/repo/a.txt"));
      reflexivity.
Defined.

(** ** Properties of the dispatch wrapper *)

(** The hint drops a leading "error: " and is the first line with text. *)
Example hintOf_abort :
  hintOf {| hgErrorCode := None;
            stderr := Some (lit "ERROR: abort: no repository found");
            message := None;
            toString := lit "Error" |}
  = Some (lit "abort: no repository found").
Proof. reflexivity. Qed.

Example hintOf_blank : hintOf blank_error = None.
Proof. reflexivity. Qed.

Example errorMessage_blank : errorMessage blank_error = lit "Hg error".
Proof. reflexivity. Qed.

Example errorMessage_dirty :
  errorMessage {| hgErrorCode := Some (lit "DirtyWorkTree");
                  stderr := None; message := None; toString := [] |}
  = lit "Please clean your repository working tree before checkout.".
Proof. reflexivity. Qed.

(** The [switch] always leaves a message: the default case falls back on
    "Hg error". *)
Lemma errorMessage_truthy (err : HgError) : truthy (errorMessage err) = true.
Proof.
  unfold errorMessage.
  destruct (hgErrorCode err) as [code |];
    [destruct (JS.eqb code (lit "DirtyWorkTree")) |];
    try reflexivity; destruct (hintOf err); reflexivity.
Qed.

Lemma errorMessage_shape (err : HgError) :
  hgErrorCode err = None ->
  errorMessage err = lit "Hg error"
  \/ exists hint, hintOf err = Some hint /\ errorMessage err = lit "Hg: " ++ hint.
Proof.
  intros Hc. unfold errorMessage. rewrite Hc.
  destruct (hintOf err) as [hint |]; [right; now exists hint | now left].
Qed.

(** What the handler of [result.catch] does with an error value: one error
    message, then the output channel when "Open Hg Log" is picked; its
    promise is fulfilled. *)
Lemma onRejected_exact (host : Host) (runtime : Runtime) (err : HgError)
  (w : World) :
  onRejected host runtime (Value err) w
  = (Fulfilled tt,
     {| inputBox := inputBox w;
        trace :=
          (trace w
           ++ [ShowErrorMessage (errorMessage err) [lit "Open Hg Log"]])
          ++ match showErrorMessage_reply host
                     (emit (ShowErrorMessage (errorMessage err)
                              [lit "Open Hg Log"]) w) with
             | Some c =>
                 if JS.eqb c (lit "Open Hg Log") then [OutputChannelShow]
                 else []
             | None => []
             end |}).
Proof.
  unfold onRejected, messageOf. rewrite errorMessage_truthy. cbn [negb].
  unfold bind, await_value, localize. cbv beta.
  destruct (showErrorMessage_reply host _) as [c |].
  - destruct (JS.eqb c (lit "Open Hg Log")); [reflexivity |].
    unfold ret. now rewrite app_nil_r.
  - unfold ret. now rewrite app_nil_r.
Qed.

Lemma onRejected_run (host : Host) (runtime : Runtime) (err : HgError)
  (w : World) :
  exists tail : list Event,
    (tail = [] \/ tail = [OutputChannelShow])
    /\ onRejected host runtime (Value err) w
       = (Fulfilled tt,
          {| inputBox := inputBox w;
             trace := (trace w
                       ++ [ShowErrorMessage (errorMessage err)
                             [lit "Open Hg Log"]]) ++ tail |}).
Proof.
  rewrite onRejected_exact.
  destruct (showErrorMessage_reply host _) as [c |].
  - destruct (JS.eqb c (lit "Open Hg Log")); eexists; split;
      try reflexivity; auto.
  - exists []. auto.
Qed.

(** The handler only adds to the trace, whatever it is given. *)
Lemma onRejected_extends (host : Host) (runtime : Runtime) (err : Reason)
  (w : World) :
  exists tail : list Event,
    trace (snd (onRejected host runtime err w)) = trace w ++ tail.
Proof.
  assert (Hshow : forall message,
             truthy message = true ->
             exists tail,
               trace (snd ((if negb (truthy message)
                            then call (ConsoleError (LError err))
                            else
                              choice <- await_value
                                          (ShowErrorMessage message
                                             [localize "open hg log"
                                                "Open Hg Log"])
                                          (showErrorMessage_reply host) ;;
                              match choice with
                              | Some c =>
                                  if JS.eqb c
                                       (localize "open hg log" "Open Hg Log")
                                  then call OutputChannelShow
                                  else ret tt
                              | None => ret tt
                              end) w))
               = trace w ++ tail).
  { intros message ->. cbn [negb]. unfold bind, await_value.
    destruct (showErrorMessage_reply host _) as [c |];
      [destruct (JS.eqb c _) |]; unfold call, ret, snd;
      rewrite ?trace_emit, <- ?app_assoc; eexists; reflexivity. }
  unfold onRejected, messageOf.
  destruct err as [| | e | code shown].
  - exists []. now rewrite app_nil_r.
  - exists []. now rewrite app_nil_r.
  - apply Hshow, errorMessage_truthy.
  - destruct (match code with Some c => _ | None => false end).
    + now apply Hshow.
    + exists []. now rewrite app_nil_r.
Qed.

Lemma guard_passes (A : Type) (this_model : option Model) (skip : bool)
  (x y : A) :
  skip = true \/ this_model <> None ->
  (if negb skip && match this_model with Some _ => false | None => true end
   then x else y) = y.
Proof.
  intros [-> | Hm]; [reflexivity |].
  destruct this_model; [| congruence]. now rewrite andb_false_r.
Qed.


(** C3: a command registered with the model check, dispatched while no model
    is bound, shows the notice and returns: the method is not applied and no
    telemetry event is sent. *)
Theorem model_check_stops_dispatch (host : Host) (runtime : Runtime)
  (Args : Type) (this_model : option Model) (id key : jsstring)
  (method : Args -> World -> Applied * World) (skipModelCheck : bool)
  (args : Args) (w : World) :
  skipModelCheck = false ->
  this_model = None ->
  createCommand host runtime this_model id key method skipModelCheck args w
  = (ReturnedUndefined,
     emit (ShowInformationMessage
             (lit "Hg is either disabled or not supported in this workspace"))
       w)
  /\ count is_methodApply
       (trace (snd (createCommand host runtime this_model id key method
                      skipModelCheck args w)))
     = count is_methodApply (trace w)
  /\ count is_telemetry
       (trace (snd (createCommand host runtime this_model id key method
                      skipModelCheck args w)))
     = count is_telemetry (trace w).
Proof.
  intros -> ->. unfold createCommand. simpl.
  repeat split; rewrite count_app; unfold count at 2; simpl; lia.
Qed.

Lemma model_check_stops_dispatch_witness :
  createCommand template_host v8 None (lit "hg.refresh") (lit "refresh")
    (failing_method blank_error) false tt empty_world
  = (ReturnedUndefined,
     emit (ShowInformationMessage
             (lit "Hg is either disabled or not supported in this workspace"))
       empty_world).
Proof.
  apply (@model_check_stops_dispatch template_host v8 unit None
           (lit "hg.refresh") (lit "refresh") (failing_method blank_error)
           false tt empty_world);
    reflexivity.
Defined.

(** ** Properties of the commit helpers *)

(** C2, at a model with one change in the working directory and nothing
    staged: called without options, [smartCommit] goes on with
    [{ all: false }] and commits under it. The default reads the
    working-directory group, not the staged changes. *)
Theorem default_scope_reads_working_directory :
  stagingGroup unstaged_only = []
  /\ effectiveOptions unstaged_only None = {| all := false |}
  /\ smartCommit quiet_host unstaged_only (ret (Some (lit "fix"))) None
       empty_world
     = (Fulfilled true,
        emit (ModelCommit (lit "fix") {| all := false |}) empty_world).
Proof.
  repeat split.
Qed.

(** Without options the scope is "all" exactly when the working-directory
    group is empty, whatever is staged. *)
Lemma effectiveOptions_default (m : Model) :
  all (effectiveOptions m None) = true <-> workingDirectoryGroup m = [].
Proof.
  unfold effectiveOptions. simpl.
  destruct (workingDirectoryGroup m); simpl; split;
    congruence || reflexivity.
Qed.

(** Options that the caller passes are kept as they are. *)
Lemma effectiveOptions_explicit (m : Model) (o : CommitOptions) :
  effectiveOptions m (Some o) = o.
Proof. reflexivity. Qed.

(** C7: with nothing staged and nothing changed in the working directory,
    [smartCommit] shows the notice "There are no changes to commit.",
    returns false and does not reach [model.commit], whatever the options
    and the source of the message. *)
Theorem smartCommit_without_changes (host : Host) (m : Model)
  (getCommitMessage : Async (option jsstring)) (opts : option CommitOptions)
  (w : World) :
  stagingGroup m = [] ->
  workingDirectoryGroup m = [] ->
  smartCommit host m getCommitMessage opts w
  = (Fulfilled false,
     emit (ShowInformationMessage (lit "There are no changes to commit.")) w)
  /\ count is_commit
       (trace (snd (smartCommit host m getCommitMessage opts w)))
     = count is_commit (trace w).
Proof.
  intros _ Hwd. unfold smartCommit. rewrite Hwd. simpl.
  split; [reflexivity |].
  rewrite count_app. unfold count at 2. simpl. lia.
Qed.

Lemma smartCommit_without_changes_witness :
  smartCommit template_host no_changes (ret (Some (lit "fix"))) None
    empty_world
  = (Fulfilled false,
     emit (ShowInformationMessage (lit "There are no changes to commit."))
       empty_world).
Proof.
  apply (@smartCommit_without_changes template_host no_changes
           (ret (Some (lit "fix"))) None empty_world);
    reflexivity.
Defined.

(** [smartCommit] reads the input box and never writes it, and it does not
    fetch the template. *)
Lemma smartCommit_frame (host : Host) (m : Model)
  (getCommitMessage : Async (option jsstring)) (opts : option CommitOptions)
  (w : World) :
  (forall w0,
      inputBox (snd (getCommitMessage w0)) = inputBox w0
      /\ count is_getCommitTemplate (trace (snd (getCommitMessage w0)))
         = count is_getCommitTemplate (trace w0)) ->
  inputBox (snd (smartCommit host m getCommitMessage opts w)) = inputBox w
  /\ count is_getCommitTemplate
       (trace (snd (smartCommit host m getCommitMessage opts w)))
     = count is_getCommitTemplate (trace w).
Proof.
  intros Hget. unfold smartCommit.
  destruct (_ || _).
  - unfold bind, call, ret, snd. rewrite trace_emit, count_app.
    unfold count at 2. simpl. split; [reflexivity | lia].
  - unfold bind. specialize (Hget w).
    destruct (getCommitMessage w) as [[[msg |] | e] w1]; simpl in Hget;
      try exact Hget.
    destruct (truthy msg); [| exact Hget].
    unfold await.
    destruct (commit_reply host _); unfold ret, snd;
      rewrite trace_emit, count_app, inputBox_emit;
      unfold count at 2; simpl; (split; [tauto | lia]).
Qed.

(** A message that is not empty, over a working directory with changes, is
    committed under the effective options. *)
Lemma smartCommit_commits (host : Host) (m : Model) (msg : jsstring)
  (opts : option CommitOptions) (w : World) :
  truthy msg = true ->
  workingDirectoryGroup m <> [] ->
  smartCommit host m (ret (Some msg)) opts w
  = match commit_reply host
            (emit (ModelCommit msg (effectiveOptions m opts)) w) with
    | Fulfilled _ =>
        (Fulfilled true, emit (ModelCommit msg (effectiveOptions m opts)) w)
    | Rejected e =>
        (Rejected e, emit (ModelCommit msg (effectiveOptions m opts)) w)
    end.
Proof.
  intros Hmsg Hwd. unfold smartCommit.
  destruct (workingDirectoryGroup m) as [| r rs]; [congruence |].
  cbn [List.length Nat.eqb andb orb]. rewrite andb_false_r.
  unfold bind, ret, await. rewrite Hmsg.
  now destruct (commit_reply host _).
Qed.

(** C8: when the input box holds a message and the commit succeeds, the
    input box ends with the template that the engine gives; when the input
    box is empty, so that the message is asked for, the input box is left as
    it was and no template is fetched. *)
Theorem commitWithAnyInput_inputBox (host : Host) (m : Model)
  (opts : option CommitOptions) (w : World) :
  (forall template : jsstring,
      truthy (inputBox w) = true ->
      workingDirectoryGroup m <> [] ->
      commit_reply host
        (emit (ModelCommit (inputBox w) (effectiveOptions m opts)) w)
      = Fulfilled tt ->
      getCommitTemplate_reply host
        (emit ModelGetCommitTemplate
           (emit (ModelCommit (inputBox w) (effectiveOptions m opts)) w))
      = Fulfilled template ->
      commitWithAnyInput host m opts w
      = (Fulfilled tt,
         {| inputBox := template;
            trace := trace w
                     ++ [ModelCommit (inputBox w) (effectiveOptions m opts);
                         ModelGetCommitTemplate] |}))
  /\ (truthy (inputBox w) = false ->
      inputBox (snd (commitWithAnyInput host m opts w)) = inputBox w
      /\ count is_getCommitTemplate
           (trace (snd (commitWithAnyInput host m opts w)))
         = count is_getCommitTemplate (trace w)).
Proof.
  split.
  - intros template Hmsg Hwd Hcommit Htemplate.
    unfold commitWithAnyInput. rewrite Hmsg. unfold bind at 1.
    rewrite smartCommit_commits by assumption.
    rewrite Hcommit. cbn [andb].
    unfold bind, await. rewrite Htemplate.
    unfold set_inputBox. rewrite !trace_emit, <- app_assoc. reflexivity.
  - intros Hmsg. unfold commitWithAnyInput. rewrite Hmsg.
    set (prompt := await_value _ _).
    assert (Hkeep : forall w0,
               inputBox (snd (prompt w0)) = inputBox w0
               /\ count is_getCommitTemplate (trace (snd (prompt w0)))
                  = count is_getCommitTemplate (trace w0)).
    { intros w0. unfold prompt, await_value, snd.
      rewrite trace_emit, count_app. unfold count at 2. simpl.
      split; [reflexivity | lia]. }
    pose proof (smartCommit_frame host m prompt opts w Hkeep) as Hframe.
    unfold bind.
    destruct (smartCommit host m prompt opts w) as [[didCommit | e] w1];
      cbn [andb]; exact Hframe.
Qed.

Lemma commitWithAnyInput_inputBox_witness :
  commitWithAnyInput template_host unstaged_only None
    {| inputBox := lit "fix"; trace := [] |}
  = (Fulfilled tt,
     {| inputBox := lit "merge";
        trace := [ModelCommit (lit "fix") {| all := false |};
                  ModelGetCommitTemplate] |})
  /\ inputBox (snd (commitWithAnyInput template_host unstaged_only None
                      empty_world))
     = [].
Proof.
  split.
  - apply (proj1 (commitWithAnyInput_inputBox template_host unstaged_only
                    None {| inputBox := lit "fix"; trace := [] |})
             (lit "merge"));
      solve [reflexivity | discriminate].
  - apply (proj2 (commitWithAnyInput_inputBox template_host unstaged_only
                    None empty_world)).
    reflexivity.
Defined.

(** ** Properties of the branch command *)

Example sanitize_overlap : sanitize (lit "a/.lock") = lit "a-lock".
Proof. reflexivity. Qed.

Example sanitize_many :
  sanitize (lit ".hidden/..x ~y^z:w/") = lit "-hidden-.x--y-z-w-".
Proof. reflexivity. Qed.

Example sanitize_lock : sanitize (lit "feature.lock") = lit "feature-".
Proof. reflexivity. Qed.

Example sanitize_plain : sanitize (lit "feature/login") = lit "feature/login".
Proof. reflexivity. Qed.

Section Engine.

Variable fl : flags.

Lemma star_bound (p : char -> bool)
  (k : option char -> jsstring -> option nat) :
  (forall prev s n, k prev s = Some n -> n <= List.length s) ->
  forall s prev n, star p k prev s = Some n -> n <= List.length s.
Proof.
  intros Hk. induction s as [| x s' IH]; intros prev n; simpl.
  - intros H. now apply Hk in H.
  - destruct (p x).
    + destruct (star p k (Some x) s') as [m |] eqn:Hs.
      * intros [= <-]. apply IH in Hs. lia.
      * intros H. now apply Hk in H.
    + intros H. now apply Hk in H.
Qed.

(** A match never runs past the end of the input. *)
Lemma match_items_bound (items : list item) :
  forall prev s n,
    match_items fl items prev s = Some n -> n <= List.length s.
Proof.
  induction items as [| it rest IH]; intros prev s n; simpl.
  - intros [= <-]. lia.
  - destruct it as [c | p | p | |].
    + destruct s as [| x s']; [discriminate |].
      destruct (chr_matches fl c x); [| discriminate].
      destruct (match_items fl rest (Some x) s') as [m |] eqn:Hm;
        [| discriminate].
      intros [= <-]. apply IH in Hm. simpl. lia.
    + destruct s as [| x s']; [discriminate |].
      destruct (p x); [| discriminate].
      destruct (match_items fl rest (Some x) s') as [m |] eqn:Hm;
        [| discriminate].
      intros [= <-]. apply IH in Hm. simpl. lia.
    + apply star_bound. exact IH.
    + destruct (at_bol fl prev); [apply IH | discriminate].
    + destruct (at_eol fl s); [apply IH | discriminate].
Qed.

Lemma match_here_bound (r : regex) :
  forall prev s n, match_here fl r prev s = Some n -> n <= List.length s.
Proof.
  induction r as [| alt r' IH]; intros prev s n; simpl; [discriminate |].
  destruct (match_items fl alt prev s) as [m |] eqn:Hm.
  - intros [= <-]. now apply match_items_bound in Hm.
  - apply IH.
Qed.

Lemma match_here_None (r : regex) (prev : option char) (s : jsstring) :
  match_here fl r prev s = None <->
  Forall (fun alt => match_items fl alt prev s = None) r.
Proof.
  induction r as [| alt r' IH]; simpl.
  - split; [constructor | reflexivity].
  - destruct (match_items fl alt prev s) eqn:Hm.
    + split; [discriminate |]. intros H. inversion H. congruence.
    + rewrite IH. split; [now constructor | intros H; now inversion H].
Qed.

End Engine.

(** Without the [m] flag a consuming sequence has no empty match on an input
    that is not empty. *)
Lemma consuming_positive (alt : list item) (prev : option char) (x : char)
  (s : jsstring) :
  consuming alt = true -> match_items g alt prev (x :: s) <> Some 0.
Proof.
  destruct alt as [| [c | p | p | |] rest]; try discriminate; simpl.
  - intros _. destruct (chr_matches g c x); [| discriminate].
    now destruct (match_items g rest (Some x) s).
  - intros _. destruct (p x); [| discriminate].
    now destruct (match_items g rest (Some x) s).
  - destruct rest as [| [c | p | p | |] rest]; try discriminate.
    + intros _. destruct (at_bol g prev); [| discriminate]. simpl.
      destruct (chr_matches g c x); [| discriminate].
      now destruct (match_items g rest (Some x) s).
    + intros _. destruct (at_bol g prev); [| discriminate]. simpl.
      destruct (p x); [| discriminate].
      now destruct (match_items g rest (Some x) s).
    + destruct rest as [| [| | | |] [|]]; try discriminate.
      intros _. destruct (at_bol g prev); [| discriminate]. simpl.
      destruct (p x); [| discriminate].
      now destruct (star p _ (Some x) s).
Qed.

Lemma forbidden_consuming : forallb consuming forbidden = true.
Proof. reflexivity. Qed.

Lemma forbidden_hyphen_free : forallb (forallb hyphen_free) forbidden = true.
Proof. reflexivity. Qed.

(** A match of the forbidden pattern on an input that is not empty has at
    least one code unit. *)
Lemma forbidden_positive (prev : option char) (x : char) (s : jsstring) :
  match_here g forbidden prev (x :: s) <> Some 0.
Proof.
  pose proof forbidden_consuming as Hc. rewrite forallb_forall in Hc.
  generalize dependent Hc. generalize forbidden as r.
  induction r as [| alt r' IH]; intros Hc; simpl; [discriminate |].
  destruct (match_items g alt prev (x :: s)) as [n |] eqn:Hm.
  - intros [= ->]. revert Hm. apply consuming_positive.
    apply Hc. now left.
  - apply IH. intros a Ha. apply Hc. now right.
Qed.

Lemma star_weaken (p : char -> bool)
  (k : option char -> jsstring -> option nat) (prev : option char)
  (s : jsstring) :
  k prev s <> None -> star p k prev s <> None.
Proof.
  intros Hk. destruct s as [| x s']; simpl; [exact Hk |].
  destruct (p x); [| exact Hk].
  now destruct (star p k (Some x) s').
Qed.

Lemma Rewritten_nil_inv (s : jsstring) : Rewritten s [] -> s = [].
Proof. intros H. now inversion H. Qed.

Lemma Rewritten_kept_inv (s out : jsstring) (x : char) :
  Rewritten s (x :: out) -> x <> 45%N ->
  exists s2, s = x :: s2 /\ Rewritten s2 out.
Proof.
  intros H Hx. inversion H; subst; [eauto | congruence].
Qed.

Lemma at_bol_g (prev : option char) : at_bol g prev = true -> prev = None.
Proof. destruct prev; [discriminate | reflexivity]. Qed.

Lemma at_eol_g (s : jsstring) : at_eol g s = true -> s = [].
Proof. destruct s; [reflexivity | discriminate]. Qed.

(** A hyphen-free sequence that matches at a position of the rewritten text
    matches at the same position of the original text. *)
Lemma match_items_transfer (alt : list item) :
  forallb hyphen_free alt = true ->
  forall (po pi : option char) (out s : jsstring),
    Rewritten s out ->
    (po = None -> pi = None) ->
    match_items g alt po out <> None ->
    match_items g alt pi s <> None.
Proof.
  induction alt as [| it rest IH]; intros Hfree po pi out s HR Hctx;
    [discriminate |].
  simpl in Hfree. apply andb_prop in Hfree as [Hit Hrest].
  specialize (IH Hrest).
  destruct it as [c | p | p | |]; simpl.
  - destruct out as [| x out2]; [congruence |].
    unfold chr_matches at 1. simpl ignoreCase. cbv iota.
    destruct (x =? c)%N eqn:Hx; [| congruence].
    apply N.eqb_eq in Hx. subst x.
    simpl in Hit. apply negb_true_iff, N.eqb_neq in Hit.
    destruct (Rewritten_kept_inv HR Hit) as [s2 [-> HR2]].
    unfold chr_matches. simpl ignoreCase. cbv iota. rewrite N.eqb_refl.
    intros Hout.
    destruct (match_items g rest (Some c) out2) eqn:Hm; [| now elim Hout].
    assert (Hin : match_items g rest (Some c) s2 <> None)
      by (apply (IH (Some c) (Some c) out2 s2 HR2); congruence).
    now destruct (match_items g rest (Some c) s2).
  - destruct out as [| x out2]; [congruence |].
    destruct (p x) eqn:Hp; [| congruence].
    assert (Hx : x <> 45%N).
    { intros ->. simpl in Hit. rewrite Hp in Hit. discriminate. }
    destruct (Rewritten_kept_inv HR Hx) as [s2 [-> HR2]].
    rewrite Hp. intros Hout.
    destruct (match_items g rest (Some x) out2) eqn:Hm; [| now elim Hout].
    assert (Hin : match_items g rest (Some x) s2 <> None)
      by (apply (IH (Some x) (Some x) out2 s2 HR2); congruence).
    now destruct (match_items g rest (Some x) s2).
  - revert po pi s HR Hctx.
    induction out as [| x out2 IHout]; intros po pi s HR Hctx.
    + apply Rewritten_nil_inv in HR. subst s. simpl.
      apply IH; [constructor | assumption].
    + simpl. destruct (p x) eqn:Hp.
      * assert (Hx : x <> 45%N).
        { intros ->. simpl in Hit. rewrite Hp in Hit. discriminate. }
        destruct (Rewritten_kept_inv HR Hx) as [s2 [-> HR2]].
        simpl. rewrite Hp.
        destruct (star p (match_items g rest) (Some x) out2) eqn:Hs.
        -- intros _.
           assert (Hin : star p (match_items g rest) (Some x) s2 <> None)
             by (apply (IHout (Some x) (Some x) s2 HR2); congruence).
           now destruct (star p (match_items g rest) (Some x) s2).
        -- intros Hout.
           destruct (star p (match_items g rest) (Some x) s2);
             [discriminate |].
           revert Hout. apply IH; [| assumption].
           now constructor.
      * intros Hout. apply star_weaken. revert Hout. now apply IH.
  - destruct (at_bol g po) eqn:Hb; [| congruence].
    apply at_bol_g in Hb. rewrite (Hctx Hb). simpl at_bol. cbv iota.
    subst po. apply IH; [assumption | reflexivity].
  - destruct (at_eol g out) eqn:He; [| congruence].
    apply at_eol_g in He. subst out.
    apply Rewritten_nil_inv in HR. subst s. simpl at_eol. cbv iota.
    apply IH; [constructor | assumption].
Qed.

(** Where the forbidden pattern has no match in the original text, it has
    none at the same position of the rewritten text. *)
Lemma forbidden_transfer (po pi : option char) (out s : jsstring) :
  Rewritten s out ->
  (po = None -> pi = None) ->
  match_here g forbidden pi s = None ->
  match_here g forbidden po out = None.
Proof.
  intros HR Hctx. rewrite !match_here_None, !Forall_forall.
  intros Hin alt Halt.
  destruct (match_items g alt po out) eqn:Hout; [| reflexivity].
  exfalso.
  pose proof forbidden_hyphen_free as Hfree. rewrite forallb_forall in Hfree.
  apply (@match_items_transfer alt (Hfree alt Halt) po pi out s HR Hctx).
  - congruence.
  - now apply Hin.
Qed.

(** No alternative of the forbidden pattern starts on a hyphen. *)
Lemma forbidden_at_hyphen (prev : option char) (s : jsstring) :
  match_here g forbidden prev (45%N :: s) = None.
Proof. now destruct prev. Qed.

Lemma forbidden_at_end (c : char) : match_here g forbidden (Some c) [] = None.
Proof. reflexivity. Qed.

Section GlobalReplace.

Variables (fl : flags) (r : regex) (repl : jsstring).

Lemma replaceAll_from_search (prev : option char) (c : char)
  (s : jsstring) :
  replaceAll_from fl r repl 0 prev (c :: s)
  = match match_here fl r prev (c :: s) with
    | Some (S n) => repl ++ replaceAll_from fl r repl n (Some c) s
    | Some O => repl ++ c :: replaceAll_from fl r repl 0 (Some c) s
    | None => c :: replaceAll_from fl r repl 0 (Some c) s
    end.
Proof. reflexivity. Qed.

Lemma replaceAll_from_skip (k : nat) (prev : option char) (c : char)
  (s : jsstring) :
  replaceAll_from fl r repl (S k) prev (c :: s)
  = replaceAll_from fl r repl k (Some c) s.
Proof. reflexivity. Qed.

Lemma test_from_search (prev : option char) (s : jsstring) :
  test_from fl r prev s
  = match match_here fl r prev s with
    | Some _ => true
    | None =>
        match s with
        | [] => false
        | c :: s' => test_from fl r (Some c) s'
        end
    end.
Proof. destruct s; reflexivity. Qed.

(** A text without a match is left as it is. *)
Lemma replaceAll_from_clean (s : jsstring) :
  forall prev,
    test_from fl r prev s = false ->
    replaceAll_from fl r repl 0 prev s = s.
Proof.
  induction s as [| c s' IH]; intros prev; rewrite test_from_search.
  - simpl. now destruct (match_here fl r prev []).
  - rewrite replaceAll_from_search.
    destruct (match_here fl r prev (c :: s')); [discriminate |].
    intros H. now rewrite IH.
Qed.

End GlobalReplace.

(** After the first code unit, the sanitized text is the remaining text
    rewritten. [skip] code units of a match are still to be dropped. *)
Lemma sanitize_from_Rewritten (s : jsstring) :
  forall (skip : nat) (c : char),
    skip <= List.length s ->
    Rewritten (skipn skip s)
      (replaceAll_from g forbidden (lit "-") skip (Some c) s).
Proof.
  induction s as [| x s' IH]; intros skip c Hskip.
  - simpl in Hskip. assert (skip = 0) as -> by lia. constructor.
  - destruct skip as [| k].
    + rewrite replaceAll_from_search. simpl skipn.
      destruct (match_here g forbidden (Some c) (x :: s')) as [[| n] |] eqn:Hm.
      * now apply forbidden_positive in Hm.
      * apply match_here_bound in Hm. simpl in Hm.
        rewrite <- (firstn_skipn n s') at 1.
        apply Rewritten_stretch. apply IH. lia.
      * apply Rewritten_keep. apply (IH 0). lia.
    + rewrite replaceAll_from_skip. simpl skipn. apply IH.
      simpl in Hskip. lia.
Qed.

(** The sanitized name is the name rewritten. *)
Lemma sanitize_Rewritten (name : jsstring) :
  name <> [] -> Rewritten name (sanitize name).
Proof.
  destruct name as [| x s']; [congruence |]. intros _.
  unfold sanitize, replaceAll. rewrite replaceAll_from_search.
  destruct (match_here g forbidden None (x :: s')) as [[| n] |] eqn:Hm.
  - now apply forbidden_positive in Hm.
  - apply match_here_bound in Hm. simpl in Hm.
    rewrite <- (firstn_skipn n s') at 1.
    apply Rewritten_stretch. apply sanitize_from_Rewritten. lia.
  - apply Rewritten_keep. apply (@sanitize_from_Rewritten s' 0). lia.
Qed.

(** The forbidden pattern has no match in a sanitized text. *)
Lemma sanitize_from_clean (s : jsstring) :
  forall (skip : nat) (pi po : option char),
    skip <= List.length s ->
    (po = None -> pi = None /\ skip = 0) ->
    test_from g forbidden po
      (replaceAll_from g forbidden (lit "-") skip pi s) = false.
Proof.
  induction s as [| x s' IH]; intros skip pi po Hskip Hctx.
  - simpl in Hskip. assert (skip = 0) as -> by lia.
    destruct pi as [c |].
    + destruct po as [d |]; [reflexivity |].
      destruct (Hctx eq_refl) as [Hpi _]. discriminate Hpi.
    + now destruct po.
  - destruct skip as [| k].
    + rewrite replaceAll_from_search.
      destruct (match_here g forbidden pi (x :: s')) as [[| n] |] eqn:Hm.
      * now apply forbidden_positive in Hm.
      * apply match_here_bound in Hm. simpl in Hm.
        change (lit "-" ++ ?t) with (45%N :: t).
        rewrite test_from_search, forbidden_at_hyphen.
        apply IH; [lia | discriminate].
      * rewrite test_from_search.
        rewrite (@forbidden_transfer po pi _ (x :: s')).
        -- apply IH; [lia | discriminate].
        -- apply Rewritten_keep. apply (@sanitize_from_Rewritten s' 0). lia.
        -- intros Hpo. now apply Hctx.
        -- exact Hm.
    + rewrite replaceAll_from_skip. apply IH.
      * simpl in Hskip. lia.
      * intros ->. destruct (Hctx eq_refl) as [_ Hk]. discriminate Hk.
Qed.

Lemma sanitize_clean (name : jsstring) :
  test g forbidden (sanitize name) = false.
Proof.
  unfold test, sanitize, replaceAll. apply sanitize_from_clean; [lia | auto].
Qed.

(** C10: a name that is entered and not empty reaches [model.branch] once,
    sanitized: stretches of the name have each become one hyphen, the other
    code units are kept, and no forbidden pattern (leading dot, "/.", "..",
    "~", "^", ":", trailing slash, ".lock" at the end or before a slash,
    backslash, "*", white space, trailing dot) is left in it; a name without
    a forbidden pattern is passed as it is. An empty or dismissed input
    reaches no operation of the engine. *)
Theorem branch_sanitizes (host : Host) (w : World) :
  let prompt :=
    ShowInputBox (lit "Branch name") (lit "Please provide a branch name") in
  let reply := showInputBox_reply host (emit prompt w) in
  (reply = None \/ reply = Some [] ->
   branch host w = (Fulfilled tt, emit prompt w))
  /\ (forall name : jsstring,
        reply = Some name ->
        name <> [] ->
        trace (snd (branch host w))
        = trace w ++ [prompt; ModelBranch (sanitize name)]
        /\ Rewritten name (sanitize name)
        /\ test g forbidden (sanitize name) = false
        /\ (test g forbidden name = false -> sanitize name = name)).
Proof.
  intros prompt reply. unfold branch, bind, await_value, localize.
  fold prompt. fold reply. split.
  - intros [-> | ->]; reflexivity.
  - intros name -> Hname. repeat split.
    + destruct name as [| x s']; [congruence |].
      unfold truthy, await, snd.
      now rewrite !trace_emit, <- app_assoc.
    + now apply sanitize_Rewritten.
    + apply sanitize_clean.
    + intros Hclean. unfold sanitize, replaceAll.
      now apply replaceAll_from_clean.
Qed.

Lemma branch_sanitizes_witness :
  trace (snd (branch naming_host empty_world))
  = [ShowInputBox (lit "Branch name") (lit "Please provide a branch name");
     ModelBranch (lit "fix-lock-file")]
  /\ branch quiet_host empty_world
     = (Fulfilled tt,
        emit (ShowInputBox (lit "Branch name")
                (lit "Please provide a branch name")) empty_world).
Proof.
  split.
  - apply (proj1 (proj2 (branch_sanitizes naming_host empty_world)
                    (lit "fix/.lock file") eq_refl
                    ltac:(discriminate))).
  - apply (proj1 (branch_sanitizes quiet_host empty_world)).
    left. reflexivity.
Defined.

(** ** Properties of the lookup by uri and of the opening commands *)

Lemma eqb_eq (a b : jsstring) : JS.eqb a b = true <-> a = b.
Proof.
  revert b. induction a as [| x a IH]; intros [| y b]; simpl;
    try (split; [discriminate | discriminate]); [tauto |].
  rewrite andb_true_iff, N.eqb_eq, IH.
  split; [intros [-> ->]; reflexivity | intros [= -> ->]; auto].
Qed.

Lemma eqb_refl (a : jsstring) : JS.eqb a a = true.
Proof. now apply eqb_eq. Qed.

(** The first element that a filter keeps. *)
Lemma hd_error_filter (A : Type) (f : A -> bool) (l : list A) (a : A) :
  hd_error (filter f l) = Some a <->
  exists pre post,
    l = pre ++ a :: post /\ f a = true /\ forallb (fun x => negb (f x)) pre = true.
Proof.
  induction l as [| x l IH]; simpl.
  - split; [discriminate |]. intros [pre [post [H _]]].
    now destruct pre.
  - destruct (f x) eqn:Hx; simpl.
    + split.
      * intros [= ->]. now exists [], l.
      * intros [[| y pre] [post [Hl [Ha Hpre]]]]; simpl in *.
        -- congruence.
        -- injection Hl as -> _. rewrite Hx in Hpre. discriminate.
    + rewrite IH. split.
      * intros [pre [post [-> [Ha Hpre]]]].
        exists (x :: pre), post. simpl. rewrite Hx. auto.
      * intros [[| y pre] [post [Hl [Ha Hpre]]]]; simpl in *.
        -- injection Hl as -> _. congruence.
        -- injection Hl as -> ->. apply andb_prop in Hpre as [_ Hpre].
           now exists pre, post.
Qed.

(** X1: [getSCMResource] gives the resource [r] exactly when the uri it
    looks up (the argument, else the one of the active editor) has the
    scheme [hg] or [file] and [r] is the first resource of the
    working-directory group whose uri prints as that uri with the scheme
    [file]. Without a uri, for another scheme or without such a resource
    it gives nothing. *)
Theorem getSCMResource_first_match (editor : Editor) (model : Model)
  (uri : option Uri) (r : Resource) :
  getSCMResource editor model uri = Some r <->
  exists u : Uri,
    match uri with Some v => Some v | None => activeTextEditor_uri editor end
    = Some u
    /\ (scheme u = lit "hg" \/ scheme u = lit "file")
    /\ exists pre post : list Resource,
         workingDirectoryGroup model = pre ++ r :: post
         /\ uri_toString editor (resourceUri r)
            = uri_toString editor (Uri_with_scheme u (lit "file"))
         /\ Forall (fun x => uri_toString editor (resourceUri x)
                             <> uri_toString editor
                                  (Uri_with_scheme u (lit "file"))) pre.
Proof.
  unfold getSCMResource.
  destruct (match uri with Some v => Some v | None => _ end) as [u |];
    [| split; [discriminate | intros [u [H _]]; discriminate]].
  set (k := fun file_u x =>
              JS.eqb (uri_toString editor (resourceUri x))
                (uri_toString editor file_u)).
  assert (Hfirst : forall file_u,
             match hd_error (filter (k file_u) (workingDirectoryGroup model))
             with
             | Some x => Some x
             | None =>
                 hd_error (filter (k file_u) (workingDirectoryGroup model))
             end = Some r <->
             exists pre post,
               workingDirectoryGroup model = pre ++ r :: post
               /\ uri_toString editor (resourceUri r)
                  = uri_toString editor file_u
               /\ Forall (fun x => uri_toString editor (resourceUri x)
                                   <> uri_toString editor file_u) pre).
  { intros file_u.
    assert (Hsame : match hd_error (filter (k file_u)
                                      (workingDirectoryGroup model)) with
                    | Some x => Some x
                    | None => hd_error (filter (k file_u)
                                          (workingDirectoryGroup model))
                    end
                    = hd_error (filter (k file_u)
                                  (workingDirectoryGroup model)))
      by (now destruct (hd_error _)).
    rewrite Hsame, hd_error_filter.
    split; intros [pre [post [Hl [Hr Hpre]]]]; exists pre, post;
      (split; [exact Hl |]); unfold k in *.
    - apply eqb_eq in Hr. split; [exact Hr |].
      apply Forall_forall. intros x Hx Heq.
      rewrite forallb_forall in Hpre. specialize (Hpre x Hx).
      apply eqb_eq in Heq. rewrite Heq in Hpre. discriminate.
    - split; [now apply eqb_eq |].
      apply forallb_forall. intros x Hx.
      rewrite Forall_forall in Hpre. specialize (Hpre x Hx).
      destruct (JS.eqb _ _) eqn:He; [| reflexivity].
      apply eqb_eq in He. contradiction. }
  destruct (JS.eqb (scheme u) (lit "hg")) eqn:Hhg.
  - apply eqb_eq in Hhg. cbn [scheme Uri_with_scheme]. rewrite eqb_refl.
    fold (k (Uri_with_scheme u (lit "file"))). rewrite Hfirst.
    split.
    + intros H. exists u. auto.
    + intros [u' [[= <-] [_ H]]]. exact H.
  - destruct (JS.eqb (scheme u) (lit "file")) eqn:Hfile.
    + apply eqb_eq in Hfile.
      assert (Hu : Uri_with_scheme u (lit "file") = u)
        by (destruct u; simpl in *; now subst).
      fold (k u). rewrite Hfirst. split.
      * intros H. exists u. rewrite Hu. auto.
      * intros [u' [[= <-] [_ H]]]. now rewrite Hu in H.
    + split; [discriminate |].
      intros [u' [[= <-] [[H | H] _]]]; apply eqb_eq in H; congruence.
Qed.

(** A uri of the scheme [hg] is looked up as the same uri of the scheme
    [file]: both find the same resource. *)
Theorem getSCMResource_hg_as_file (editor : Editor) (model : Model)
  (u : Uri) :
  scheme u = lit "hg" ->
  getSCMResource editor model (Some u)
  = getSCMResource editor model (Some (Uri_with_scheme u (lit "file"))).
Proof.
  intros Hhg. unfold getSCMResource. rewrite Hhg.
  cbn [scheme Uri_with_scheme JS.eqb lit map list_ascii_of_string].
  reflexivity.
Qed.

Lemma getSCMResource_hg_as_file_witness :
  getSCMResource sample_editor two_changes
    (Some (historical (file_uri "/repo/a.txt")))
  = getSCMResource sample_editor two_changes
      (Some (Uri_with_scheme (historical (file_uri "/repo/a.txt"))
               (lit "file"))).
Proof.
  apply (@getSCMResource_hg_as_file sample_editor two_changes
           (historical (file_uri "/repo/a.txt"))).
  reflexivity.
Defined.

(** X2: [openFileFromUri] and [openChangeFromUri] do nothing for a uri that
    finds no resource; when [openFileFromUri] opens something, it is the
    uri of a resource of the working-directory group. *)
Theorem open_from_uri_stays_in_group (host : Host) (editor : Editor)
  (model : Model) (uri : option Uri) (w : World) :
  (getSCMResource editor model uri = None ->
   openFileFromUri host editor model uri w = (Fulfilled tt, w)
   /\ openChangeFromUri host editor model uri w = (Fulfilled tt, w))
  /\ (trace (snd (openFileFromUri host editor model uri w)) = trace w
      \/ exists r : Resource,
           In r (workingDirectoryGroup model)
           /\ trace (snd (openFileFromUri host editor model uri w))
              = trace w
                ++ [ExecuteCommand (lit "vscode.open")
                      [AUri (resourceUri r)]]).
Proof.
  unfold openFileFromUri, openChangeFromUri. split.
  - intros ->. split; reflexivity.
  - destruct (getSCMResource editor model uri) as [r |] eqn:Hfound.
    + right. exists r. split; [| reflexivity].
      apply getSCMResource_first_match in Hfound
        as [u [_ [_ [pre [post [Hl _]]]]]].
      rewrite Hl. apply in_or_app. right. now left.
    + now left.
Qed.

Lemma open_from_uri_stays_in_group_witness :
  openFileFromUri quiet_host sample_editor no_changes None empty_world
  = (Fulfilled tt, empty_world).
Proof.
  apply (proj1 (open_from_uri_stays_in_group quiet_host sample_editor
                  no_changes None empty_world)).
  reflexivity.
Defined.

(** What [openChange] shows by status: the comparison for DELETED and
    MODIFIED, the file alone for ADDED, UNTRACKED and IGNORED, nothing but
    an error on the console otherwise, and nothing at all without a
    resource. *)
Theorem openChange_by_status (host : Host) (r : Resource) (w : World) :
  openChange host None w = (Fulfilled tt, w)
  /\ trace (snd (openChange host (Some r) w))
     = trace w
       ++ [match status r with
           | DELETED =>
               ExecuteCommand (lit "vscode.diff")
                 [AUri (historical (original r));
                  AUri (historical (resourceUri r)); AStr []]
           | MODIFIED =>
               ExecuteCommand (lit "vscode.diff")
                 [AUri (historical (original r)); AUri (resourceUri r);
                  AStr (basename host (fsPath host (resourceUri r))
                        ++ lit " (Working Folder)")]
           | ADDED | UNTRACKED | IGNORED =>
               ExecuteCommand (lit "vscode.open") [AUri (resourceUri r)]
           | CLEAN => ConsoleError (LText (lit "oh no"))
           end].
Proof.
  split; [reflexivity |].
  unfold openChange, _openResource, getRightResource, getLeftResource,
    getTitle.
  destruct (status r); reflexivity.
Qed.

(** ** Properties of the commit commands *)

(** The test before the message is asked for comes down to the
    working-directory group being empty. *)
Lemma smartCommit_run (host : Host) (m : Model)
  (getCommitMessage : Async (option jsstring)) (opts : option CommitOptions)
  (w : World) :
  smartCommit host m getCommitMessage opts w
  = match workingDirectoryGroup m with
    | [] =>
        (Fulfilled false,
         emit (ShowInformationMessage
                 (lit "There are no changes to commit.")) w)
    | _ :: _ =>
        match getCommitMessage w with
        | (Rejected e, w1) => (Rejected e, w1)
        | (Fulfilled None, w1) => (Fulfilled false, w1)
        | (Fulfilled (Some msg), w1) =>
            if truthy msg then
              match commit_reply host
                      (emit (ModelCommit msg (effectiveOptions m opts)) w1)
              with
              | Fulfilled _ =>
                  (Fulfilled true,
                   emit (ModelCommit msg (effectiveOptions m opts)) w1)
              | Rejected e =>
                  (Rejected e,
                   emit (ModelCommit msg (effectiveOptions m opts)) w1)
              end
            else (Fulfilled false, w1)
        end
    end.
Proof.
  unfold smartCommit.
  destruct (workingDirectoryGroup m) as [| r rs].
  - cbn [List.length Nat.eqb andb orb]. reflexivity.
  - cbn [List.length Nat.eqb andb orb]. rewrite andb_false_r.
    unfold bind.
    destruct (getCommitMessage w) as [[[msg |] | e] w1]; try reflexivity.
    destruct (truthy msg); [| reflexivity].
    unfold await, ret. now destruct (commit_reply host _).
Qed.

(** X3: the notice "There are no changes to commit." is shown exactly when
    the working-directory group is empty, whatever the options and whatever
    is staged; the message is then not even asked for. *)
Theorem no_changes_notice_iff (host : Host) (m : Model)
  (getCommitMessage : Async (option jsstring)) (opts : option CommitOptions)
  (w : World) :
  (forall w0,
      count is_dialog (trace (snd (getCommitMessage w0)))
      = count is_dialog (trace w0)) ->
  (workingDirectoryGroup m = [] <->
   count is_dialog
     (trace (snd (smartCommit host m getCommitMessage opts w)))
   = count is_dialog (trace w) + 1)
  /\ (workingDirectoryGroup m = [] ->
      smartCommit host m getCommitMessage opts w
      = (Fulfilled false,
         emit (ShowInformationMessage
                 (lit "There are no changes to commit.")) w)).
Proof.
  intros Hget. rewrite smartCommit_run.
  destruct (workingDirectoryGroup m) as [| r rs].
  - split; [| reflexivity].
    split; [| reflexivity]. intros _.
    unfold snd. rewrite trace_emit, count_app. reflexivity.
  - split; [| discriminate].
    split; [discriminate |]. intros Hcount. exfalso.
    specialize (Hget w).
    destruct (getCommitMessage w) as [[[msg |] | e] w1]; simpl in Hget;
      try (unfold snd in Hcount; lia).
    destruct (truthy msg); [| unfold snd in Hcount; lia].
    destruct (commit_reply host _); unfold snd in Hcount;
      rewrite trace_emit, count_app in Hcount;
      unfold count at 2 in Hcount; simpl in Hcount; lia.
Qed.

Lemma no_changes_notice_iff_witness :
  smartCommit quiet_host no_changes (ret (Some (lit "fix")))
    (Some {| all := true |}) empty_world
  = (Fulfilled false,
     emit (ShowInformationMessage (lit "There are no changes to commit."))
       empty_world).
Proof.
  apply (proj2 (@no_changes_notice_iff quiet_host no_changes
                  (ret (Some (lit "fix"))) (Some {| all := true |})
                  empty_world (fun _ => eq_refl))).
  reflexivity.
Defined.

(** X4: a message that is missing or empty ends [smartCommit] where the
    message was asked for: false is returned, nothing is shown and
    [model.commit] is not reached; a message that reaches [model.commit] is
    never empty. *)
Theorem smartCommit_needs_message (host : Host) (m : Model)
  (getCommitMessage : Async (option jsstring)) (opts : option CommitOptions)
  (w w1 : World) (answer : option jsstring) :
  workingDirectoryGroup m <> [] ->
  getCommitMessage w = (Fulfilled answer, w1) ->
  (truthy_opt answer = false ->
   smartCommit host m getCommitMessage opts w = (Fulfilled false, w1))
  /\ (forall msg o,
        In (ModelCommit msg o)
          (skipn (List.length (trace w1))
             (trace (snd (smartCommit host m getCommitMessage opts w)))) ->
        answer = Some msg /\ msg <> [] /\ o = effectiveOptions m opts).
Proof.
  intros Hwd Hget. rewrite smartCommit_run, Hget.
  destruct (workingDirectoryGroup m) as [| r rs]; [congruence |].
  split.
  - destruct answer as [msg |]; [| reflexivity].
    simpl. now intros ->.
  - intros msg o.
    destruct answer as [a |].
    + destruct (truthy a) eqn:Ha.
      * assert (Hnew : forall x : Outcome bool,
                   skipn (List.length (trace w1))
                     (trace (snd (x, emit (ModelCommit a
                                             (effectiveOptions m opts)) w1)))
                   = [ModelCommit a (effectiveOptions m opts)]).
        { intros x. unfold snd. rewrite trace_emit.
          rewrite skipn_app, skipn_all.
          replace (List.length (trace w1) - List.length (trace w1)) with 0
            by lia.
          reflexivity. }
        destruct (commit_reply host _); rewrite Hnew;
          (intros [[= <- <-] | []]; repeat split;
           intros ->; discriminate).
      * unfold snd. rewrite skipn_all. intros [].
    + unfold snd. rewrite skipn_all. intros [].
Qed.

Lemma smartCommit_needs_message_witness :
  smartCommit quiet_host unstaged_only (ret (Some [])) None empty_world
  = (Fulfilled false, empty_world).
Proof.
  apply (proj1 (@smartCommit_needs_message quiet_host unstaged_only
                  (ret (Some [])) None empty_world empty_world (Some [])
                  ltac:(discriminate) eq_refl)).
  reflexivity.
Defined.

(** X5: when the engine refuses the commit of the message of the input box,
    [commitWithAnyInput] is rejected with the error of the engine, the input
    box still holds the message and the template is not fetched. *)
Theorem commit_failure_keeps_message (host : Host) (m : Model)
  (opts : option CommitOptions) (w : World) (e : Reason) :
  truthy (inputBox w) = true ->
  workingDirectoryGroup m <> [] ->
  commit_reply host
    (emit (ModelCommit (inputBox w) (effectiveOptions m opts)) w)
  = Rejected e ->
  commitWithAnyInput host m opts w
  = (Rejected e,
     emit (ModelCommit (inputBox w) (effectiveOptions m opts)) w).
Proof.
  intros Hmsg Hwd Hcommit.
  unfold commitWithAnyInput. rewrite Hmsg. unfold bind at 1.
  rewrite smartCommit_run.
  destruct (workingDirectoryGroup m) as [| r rs]; [congruence |].
  unfold ret at 1. rewrite Hmsg, Hcommit. reflexivity.
Qed.

Lemma commit_failure_keeps_message_witness :
  inputBox (snd (commitWithAnyInput refusing_host unstaged_only None
                   {| inputBox := lit "fix"; trace := [] |}))
  = lit "fix".
Proof.
  rewrite (@commit_failure_keeps_message refusing_host unstaged_only None
             {| inputBox := lit "fix"; trace := [] |}
             (Value commit_failure)
             eq_refl ltac:(discriminate) eq_refl).
  reflexivity.
Defined.

(** X6: the scope by command, when the input box holds a message and the
    working directory has changes: [commitAll] commits with [all: true],
    [commitStaged] and [commit] with [all: false]. *)
Theorem commit_scope_by_command (host : Host) (m : Model) (w : World) :
  truthy (inputBox w) = true ->
  workingDirectoryGroup m <> [] ->
  (exists rest,
      trace (snd (commitAll host m w))
      = trace w ++ ModelCommit (inputBox w) {| all := true |} :: rest)
  /\ (exists rest,
         trace (snd (commitStaged host m w))
         = trace w ++ ModelCommit (inputBox w) {| all := false |} :: rest)
  /\ (exists rest,
         trace (snd (commit host m w))
         = trace w ++ ModelCommit (inputBox w) {| all := false |} :: rest).
Proof.
  intros Hmsg Hwd.
  assert (Hrun : forall opts,
             exists rest,
               trace (snd (commitWithAnyInput host m opts w))
               = trace w
                 ++ ModelCommit (inputBox w) (effectiveOptions m opts)
                    :: rest).
  { intros opts. unfold commitWithAnyInput. rewrite Hmsg. unfold bind at 1.
    rewrite smartCommit_run.
    destruct (workingDirectoryGroup m) as [| r rs]; [congruence |].
    unfold ret at 1. rewrite Hmsg.
    destruct (commit_reply host _).
    - cbn [andb]. unfold bind, await.
      destruct (getCommitTemplate_reply host _); unfold snd, set_inputBox;
        cbn [trace]; rewrite !trace_emit, <- app_assoc;
        now exists [ModelGetCommitTemplate].
    - unfold snd. rewrite trace_emit. now exists []. }
  unfold commitAll, commitStaged, commit. repeat split; try apply Hrun.
  destruct (Hrun None) as [rest Hrest]. exists rest. rewrite Hrest.
  unfold effectiveOptions.
  destruct (workingDirectoryGroup m); [congruence | reflexivity].
Qed.

Lemma commit_scope_by_command_witness :
  exists rest,
    trace (snd (commitAll quiet_host unstaged_only
                  {| inputBox := lit "fix"; trace := [] |}))
    = ModelCommit (lit "fix") {| all := true |} :: rest.
Proof.
  apply (proj1 (@commit_scope_by_command quiet_host unstaged_only
                  {| inputBox := lit "fix"; trace := [] |}
                  eq_refl ltac:(discriminate))).
Defined.

(** X7: [commitWithInput] never asks for a message: with an empty input box
    and changes in the working directory it ends at once, nothing shown and
    nothing committed. *)
Theorem commitWithInput_never_prompts (host : Host) (m : Model) (w : World) :
  count is_showInputBox (trace (snd (commitWithInput host m w)))
  = count is_showInputBox (trace w)
  /\ (inputBox w = [] ->
      workingDirectoryGroup m <> [] ->
      commitWithInput host m w = (Fulfilled tt, w)).
Proof.
  unfold commitWithInput, bind. rewrite smartCommit_run.
  unfold inputBox_value.
  destruct (workingDirectoryGroup m) as [| r rs].
  - split; [| congruence].
    unfold ret, snd. rewrite trace_emit, count_app. unfold count at 2.
    simpl. lia.
  - split.
    + destruct (truthy (inputBox w)); [| reflexivity].
      destruct (commit_reply host _).
      * unfold await.
        destruct (getCommitTemplate_reply host _);
          unfold snd, set_inputBox; cbn [trace];
          rewrite !trace_emit, !count_app; unfold count at 2 3; simpl; lia.
      * unfold snd. rewrite trace_emit, count_app. unfold count at 2.
        simpl. lia.
    + intros -> _. reflexivity.
Qed.

Lemma commitWithInput_never_prompts_witness :
  commitWithInput refusing_host unstaged_only empty_world
  = (Fulfilled tt, empty_world).
Proof.
  apply (proj2 (commitWithInput_never_prompts refusing_host unstaged_only
                  empty_world) eq_refl).
  discriminate.
Defined.

(** ** More on the dispatch wrapper *)

(** X8: when a handler is rejected with an error value, an object whose
    [stderr] and [message] are strings or falsy or a primitive, the promise
    of the wrapper is fulfilled and the wrapper shows exactly one error
    message, never an empty one, with the one item "Open Hg Log"; it shows
    the output channel exactly when that item is picked, and it never
    writes to the console. The code [DirtyWorkTree] gives its own message,
    whatever the diagnostic text. *)
Theorem rejected_dispatch_dialog (host : Host) (runtime : Runtime)
  (Args : Type) (this_model : option Model) (id key : jsstring)
  (method : Args -> World -> Applied * World) (skipModelCheck : bool)
  (args : Args) (w w2 : World) (err : HgError) :
  skipModelCheck = true \/ this_model <> None ->
  method args (entered id key w) = (Returns (Rejected (Value err)), w2) ->
  let result :=
    createCommand host runtime this_model id key method skipModelCheck
      args w in
  let w3 := snd result in
  let pick :=
    showErrorMessage_reply host
      (emit (ShowErrorMessage (errorMessage err) [lit "Open Hg Log"]) w2) in
  fst result = ReturnedPromise (Fulfilled tt)
  /\ inputBox w3 = inputBox w2
  /\ trace w3
     = (trace w2 ++ [ShowErrorMessage (errorMessage err) [lit "Open Hg Log"]])
       ++ (if match pick with
              | Some c => JS.eqb c (lit "Open Hg Log")
              | None => false
              end
           then [OutputChannelShow] else [])
  /\ errorMessage err <> []
  /\ count is_consoleError (trace w3) = count is_consoleError (trace w2)
  /\ (count is_outputChannelShow (trace w3)
      = count is_outputChannelShow (trace w2) + 1
      <-> pick = Some (lit "Open Hg Log"))
  /\ (hgErrorCode err = Some (lit "DirtyWorkTree") ->
      errorMessage err
      = lit "Please clean your repository working tree before checkout.").
Proof.
  intros Hguard Hrej result w3 pick. subst w3 result.
  unfold createCommand. rewrite guard_passes by assumption.
  fold (entered id key w). rewrite Hrej, onRejected_exact.
  unfold fst, snd. cbn [trace inputBox]. fold pick.
  assert (Hpick : match pick with
                  | Some c =>
                      if JS.eqb c (lit "Open Hg Log")
                      then [OutputChannelShow] else []
                  | None => []
                  end
                  = if match pick with
                       | Some c => JS.eqb c (lit "Open Hg Log")
                       | None => false
                       end
                    then [OutputChannelShow] else [])
    by (destruct pick as [c |]; [now destruct (JS.eqb c _) | reflexivity]).
  rewrite Hpick. clear Hpick.
  split; [reflexivity |]. split; [reflexivity |].
  split; [reflexivity |]. split.
  { pose proof (errorMessage_truthy err) as Ht.
    intros Hempty. rewrite Hempty in Ht. discriminate. }
  split.
  { rewrite !count_app. unfold count at 2. simpl.
    destruct (match pick with Some _ => _ | None => _ end);
      unfold count at 2; simpl; lia. }
  split.
  { rewrite !count_app. unfold count at 2. simpl.
    destruct pick as [c |].
    - destruct (JS.eqb c (lit "Open Hg Log")) eqn:Hc.
      + apply eqb_eq in Hc. subst c. unfold count at 2. simpl.
        split; [reflexivity | intros _; lia].
      + unfold count at 2. simpl. split; [lia |].
        intros [= ->]. rewrite eqb_refl in Hc. discriminate.
    - unfold count at 2. simpl. split; [lia | discriminate]. }
  intros Hcode. unfold errorMessage. rewrite Hcode, eqb_refl. reflexivity.
Qed.

Lemma rejected_dispatch_dialog_witness :
  trace (snd (createCommand template_host v8 (Some no_changes)
                (lit "hg.refresh") (lit "refresh")
                (failing_method commit_failure) false tt empty_world))
  = (trace (entered (lit "hg.refresh") (lit "refresh") empty_world)
     ++ [ShowErrorMessage (lit "Hg: abort: nothing changed")
           [lit "Open Hg Log"]])
    ++ [OutputChannelShow].
Proof.
  apply (@rejected_dispatch_dialog template_host v8 unit (Some no_changes)
           (lit "hg.refresh") (lit "refresh")
           (failing_method commit_failure) false tt empty_world
           (entered (lit "hg.refresh") (lit "refresh") empty_world)
           commit_failure).
  - right. discriminate.
  - reflexivity.
Defined.

(** X9: a dispatch that passes the model check sends the telemetry event
    of the command and then applies the method, whether the method ends
    fulfilled or rejected or throws; everything else comes after. *)
Theorem dispatch_sends_telemetry_first (host : Host) (runtime : Runtime)
  (Args : Type) (this_model : option Model) (id key : jsstring)
  (method : Args -> World -> Applied * World) (skipModelCheck : bool)
  (args : Args) (w : World) :
  skipModelCheck = true \/ this_model <> None ->
  (forall w0, exists events,
      trace (snd (method args w0)) = trace w0 ++ events) ->
  exists rest : list Event,
    trace (snd (createCommand host runtime this_model id key method
                  skipModelCheck args w))
    = trace w
      ++ SendTelemetryEvent (lit "hg.command") [(lit "command", id)]
         :: MethodApply key :: rest.
Proof.
  intros Hguard Hext.
  unfold createCommand. rewrite guard_passes by assumption.
  fold (entered id key w).
  destruct (Hext (entered id key w)) as [events Hevents].
  assert (Hentered : trace (entered id key w)
                     = trace w
                       ++ [SendTelemetryEvent (lit "hg.command")
                             [(lit "command", id)]; MethodApply key]).
  { unfold entered. rewrite !trace_emit, <- app_assoc. reflexivity. }
  destruct (method args (entered id key w)) as [[[v | err] | thrown] w2];
    unfold snd in Hevents.
  - exists events. unfold snd. rewrite Hevents, Hentered, <- app_assoc.
    reflexivity.
  - destruct (onRejected_extends host runtime err w2) as [tail Htail].
    destruct (onRejected host runtime err w2) as [o w3].
    unfold snd in *. rewrite Htail, Hevents, Hentered, <- !app_assoc.
    eexists. reflexivity.
  - exists events. unfold snd. rewrite Hevents, Hentered, <- app_assoc.
    reflexivity.
Qed.

Lemma dispatch_sends_telemetry_first_witness :
  exists rest : list Event,
    trace (snd (createCommand quiet_host v8 None (lit "hg.clone")
                  (lit "clone") (failing_method blank_error) true tt
                  empty_world))
    = SendTelemetryEvent (lit "hg.command") [(lit "command", lit "hg.clone")]
      :: MethodApply (lit "clone") :: rest.
Proof.
  apply (@dispatch_sends_telemetry_first quiet_host v8 unit None
           (lit "hg.clone") (lit "clone") (failing_method blank_error)
           true tt empty_world).
  - left. reflexivity.
  - intros w0. exists []. unfold failing_method, rejecting_method, async, snd.
    now rewrite app_nil_r.
Defined.

(** ** Properties of the hint *)

Section FirstReplace.

Variables (fl : flags) (r : regex) (repl : jsstring).

(** A text without a match is left as it is by [replace]. *)
Lemma replace_from_clean (s : jsstring) :
  forall prev,
    test_from fl r prev s = false -> replace_from fl r repl prev s = s.
Proof.
  induction s as [| c s' IH]; intros prev; simpl;
    destruct (match_here fl r prev _); try discriminate; [reflexivity |].
  intros H. now rewrite IH.
Qed.

Lemma replace_from_search (prev : option char) (s : jsstring) :
  replace_from fl r repl prev s
  = match match_here fl r prev s with
    | Some n => repl ++ skipn n s
    | None =>
        match s with
        | [] => []
        | c :: s' => c :: replace_from fl r repl (Some c) s'
        end
    end.
Proof. destruct s; reflexivity. Qed.

End FirstReplace.

Lemma split_lines_pieces (s : jsstring) :
  forall l, In l (split_lines s) ->
            forallb (fun c => negb (is_break c)) l = true.
Proof.
  induction s as [| c s' IH]; intros l; simpl.
  - intros [<- | []]. reflexivity.
  - fold (is_break c). destruct (is_break c) eqn:Hc.
    + intros [<- | Hin]; [reflexivity | now apply IH].
    + destruct (split_lines s') as [| l0 ls].
      * intros [<- | []]. simpl. now rewrite Hc.
      * intros [<- | Hin].
        -- simpl. rewrite Hc. apply IH. now left.
        -- apply IH. now right.
Qed.

Lemma split_lines_one (s : jsstring) :
  forallb (fun c => negb (is_break c)) s = true -> split_lines s = [s].
Proof.
  induction s as [| c s' IH]; simpl; [reflexivity |].
  fold (is_break c). intros H. apply andb_prop in H as [Hc Hs].
  apply negb_true_iff in Hc. rewrite Hc, (IH Hs). reflexivity.
Qed.

(** X10: the hint, when there is one, is one line of text: it is not empty
    and holds no carriage return and no line feed; the message of the
    dialog is in every case one line that is not empty. *)
Theorem hint_is_one_line (err : HgError) :
  (forall hint, hintOf err = Some hint ->
                hint <> []
                /\ forallb (fun c => negb (is_break c)) hint = true)
  /\ errorMessage err <> []
  /\ forallb (fun c => negb (is_break c)) (errorMessage err) = true.
Proof.
  assert (Hhint : forall hint,
             hintOf err = Some hint ->
             hint <> []
             /\ forallb (fun c => negb (is_break c)) hint = true).
  { intros hint. unfold hintOf. rewrite hd_error_filter.
    intros [pre [post [Hl [Ht _]]]]. split.
    - intros ->. discriminate.
    - apply (split_lines_pieces
               (replace mi husky_line []
                  (replace mi error_prefix []
                     (or_else (stderr err)
                        (or_else (message err) (toString err)))))).
      rewrite Hl. apply in_or_app. right. now left. }
  split; [exact Hhint |]. split.
  - pose proof (errorMessage_truthy err) as Ht.
    intros He. rewrite He in Ht. discriminate.
  - unfold errorMessage.
    assert (Hdefault :
              forallb (fun c => negb (is_break c))
                match hintOf err with
                | Some hint => lit "Hg: " ++ hint
                | None => localize "hg error" "Hg error"
                end = true).
    { destruct (hintOf err) as [hint |] eqn:Hh; [| reflexivity].
      rewrite forallb_app. destruct (Hhint hint eq_refl) as [_ ->].
      reflexivity. }
    destruct (hgErrorCode err) as [code |]; [| exact Hdefault].
    destruct (JS.eqb code (lit "DirtyWorkTree")); [reflexivity |].
    exact Hdefault.
Qed.

(** A line of the source text, as the hint keeps it. *)
Lemma hint_of_line (text line : jsstring) :
  replace mi husky_line [] (replace mi error_prefix [] text) = line ->
  line <> [] ->
  forallb (fun c => negb (is_break c)) line = true ->
  hd_error (filter truthy (split_lines
     (replace mi husky_line [] (replace mi error_prefix [] text))))
  = Some line.
Proof.
  intros -> Hne Hline. rewrite (split_lines_one _ Hline). simpl.
  destruct line; [congruence | reflexivity].
Qed.

(** X11: a diagnostic text of one line, in which neither pattern of noise
    has a match, is the hint as it is, and the message is "Hg: " followed
    by it. *)
Theorem hint_of_plain_line (err : HgError) (line : jsstring) :
  stderr err = Some line ->
  line <> [] ->
  forallb (fun c => negb (is_break c)) line = true ->
  test mi error_prefix line = false ->
  test mi husky_line line = false ->
  hintOf err = Some line
  /\ (hgErrorCode err = None -> errorMessage err = lit "Hg: " ++ line).
Proof.
  intros Hstderr Hne Hline Herror Hhusky.
  assert (Hhint : hintOf err = Some line).
  { unfold hintOf. rewrite Hstderr. unfold or_else.
    destruct line as [| c l]; [congruence |]. cbn [truthy].
    apply hint_of_line; [| assumption | assumption].
    unfold replace. unfold test in Herror, Hhusky.
    rewrite (replace_from_clean mi error_prefix [] _ _ Herror).
    now apply replace_from_clean. }
  split; [exact Hhint |].
  intros Hcode. unfold errorMessage. now rewrite Hcode, Hhint.
Qed.

Lemma hint_of_plain_line_witness :
  hintOf commit_failure = Some (lit "abort: nothing changed").
Proof.
  apply (@hint_of_plain_line commit_failure (lit "abort: nothing changed"));
    solve [reflexivity | discriminate].
Defined.

(** Pattern characters under the flag [i] match a text that is the same up
    to the case of the letters. *)
Lemma match_chars_ci (rest : list item) (pat : jsstring) :
  forall (P : jsstring) (prev : option char) (s : jsstring),
    map canonicalize P = map canonicalize pat ->
    exists prev',
      match_items mi (map Chr pat ++ rest) prev (P ++ s)
      = option_map (Nat.add (List.length pat)) (match_items mi rest prev' s).
Proof.
  induction pat as [| c pat IH]; intros P prev s Hci.
  - destruct P; [| discriminate]. exists prev. simpl.
    now destruct (match_items mi rest prev s).
  - destruct P as [| x P]; [discriminate |].
    simpl in Hci. injection Hci as Hx HP.
    destruct (IH P (Some x) s HP) as [prev' Hrest]. exists prev'.
    cbn [map app match_items]. unfold chr_matches. cbn [ignoreCase mi].
    rewrite Hx, N.eqb_refl, Hrest.
    now destruct (match_items mi rest prev' s).
Qed.

(** X12: a leading "error: ", in any case of the letters, is dropped from
    the hint: for a text made of that prefix and one line without a husky
    line, the hint is the line. *)
Theorem hint_strips_error_prefix (err : HgError) (prefix line : jsstring) :
  stderr err = Some (prefix ++ line) ->
  map canonicalize prefix = lit "ERROR: " ->
  line <> [] ->
  forallb (fun c => negb (is_break c)) line = true ->
  test mi husky_line line = false ->
  hintOf err = Some line.
Proof.
  intros Hstderr Hprefix Hne Hline Hhusky.
  unfold hintOf. rewrite Hstderr. unfold or_else.
  assert (Hlen : List.length prefix = 7)
    by (rewrite <- (length_map canonicalize), Hprefix; reflexivity).
  destruct (truthy (prefix ++ line)) eqn:Ht;
    [| destruct prefix; discriminate].
  apply hint_of_line; [| assumption | assumption].
  assert (Hstrip : replace mi error_prefix [] (prefix ++ line) = line).
  { unfold replace. rewrite replace_from_search.
    destruct (match_chars_ci [] (lit "error: ") prefix None line Hprefix)
      as [prev' Hm].
    change (match_here mi error_prefix None (prefix ++ line))
      with (match match_items mi (map Chr (lit "error: ") ++ []) None
                    (prefix ++ line) with
            | Some n => Some n
            | None => None
            end).
    rewrite Hm. cbn [match_items option_map].
    change (List.length (lit "error: ") + 0) with 7.
    rewrite <- Hlen, skipn_app, skipn_all.
    replace (List.length prefix - List.length prefix) with 0 by lia.
    reflexivity. }
  rewrite Hstrip. unfold replace. now apply replace_from_clean.
Qed.

Lemma hint_strips_error_prefix_witness :
  hintOf {| hgErrorCode := None;
            stderr := Some (lit "Error: " ++ lit "push failed");
            message := None;
            toString := lit "Error" |}
  = Some (lit "push failed").
Proof.
  apply (@hint_strips_error_prefix _ (lit "Error: ") (lit "push failed"));
    solve [reflexivity | discriminate].
Defined.

Lemma is_break_terminator (c : char) :
  is_break c = true -> isLineTerminator c = true.
Proof.
  unfold is_break, isLineTerminator. intros H.
  apply orb_prop in H as [-> | ->];
    [now rewrite orb_true_r | reflexivity].
Qed.

(** [.*$] at the head of a line: everything up to the break. *)
Lemma star_dot_to_break (junk : jsstring) (br : char) (t : jsstring) :
  forallb dot junk = true ->
  is_break br = true ->
  forall prev,
    star dot (match_items mi [Eol]) prev (junk ++ br :: t)
    = Some (List.length junk).
Proof.
  intros Hjunk Hbr. apply is_break_terminator in Hbr.
  induction junk as [| x junk IH]; intros prev.
  - cbn [app star]. unfold dot at 1. rewrite Hbr. cbn [negb].
    cbn [match_items at_eol multiline mi]. rewrite Hbr. reflexivity.
  - cbn [forallb] in Hjunk. apply andb_prop in Hjunk as [Hx Hjunk].
    cbn [app star]. rewrite Hx, (IH Hjunk). reflexivity.
Qed.

(** X13: a first line that starts with "> husky", in any case of the
    letters, is dropped from the hint: for a text made of such a line, a
    line break and one more line, the hint is that second line. *)
Theorem hint_drops_husky_line (err : HgError) (mark junk line : jsstring)
  (br : char) :
  stderr err = Some (mark ++ junk ++ br :: line) ->
  map canonicalize mark = lit "> HUSKY" ->
  forallb dot junk = true ->
  is_break br = true ->
  test mi error_prefix (mark ++ junk ++ br :: line) = false ->
  line <> [] ->
  forallb (fun c => negb (is_break c)) line = true ->
  hintOf err = Some line.
Proof.
  intros Hstderr Hmark Hjunk Hbr Herror Hne Hline.
  unfold hintOf. rewrite Hstderr. unfold or_else.
  assert (Hlen : List.length mark = 7)
    by (rewrite <- (length_map canonicalize), Hmark; reflexivity).
  destruct (truthy (mark ++ junk ++ br :: line)) eqn:Ht;
    [| destruct mark; discriminate].
  unfold test in Herror. unfold replace at 2.
  rewrite (replace_from_clean mi error_prefix [] _ _ Herror).
  unfold replace. rewrite replace_from_search.
  destruct (match_chars_ci [Star dot; Eol] (lit "> husky") mark None
              (junk ++ br :: line) Hmark) as [prev' Hm].
  change (match_here mi husky_line None (mark ++ junk ++ br :: line))
    with (match match_items mi (map Chr (lit "> husky") ++ [Star dot; Eol])
                  None (mark ++ junk ++ br :: line) with
          | Some n => Some n
          | None => None
          end).
  rewrite Hm.
  change (match_items mi [Star dot; Eol] prev' (junk ++ br :: line))
    with (star dot (match_items mi [Eol]) prev' (junk ++ br :: line)).
  rewrite (star_dot_to_break junk br line Hjunk Hbr). cbn [option_map].
  change (List.length (lit "> husky")) with 7.
  rewrite <- Hlen, app_nil_l, skipn_app, skipn_all2 by lia.
  replace (List.length mark + List.length junk - List.length mark)
    with (List.length junk) by lia.
  rewrite app_nil_l, skipn_app, skipn_all.
  replace (List.length junk - List.length junk) with 0 by lia.
  cbn [app skipn split_lines]. fold (is_break br). rewrite Hbr.
  rewrite (split_lines_one _ Hline). cbn [filter truthy].
  destruct line; [congruence | reflexivity].
Qed.

Lemma hint_drops_husky_line_witness :
  hintOf {| hgErrorCode := None;
            stderr := Some (lit "> husky" ++ lit " - pre-commit hook"
                            ++ 10%N :: lit "abort: hook failed");
            message := None;
            toString := lit "Error" |}
  = Some (lit "abort: hook failed").
Proof.
  apply (@hint_drops_husky_line _ (lit "> husky")
           (lit " - pre-commit hook") (lit "abort: hook failed") 10%N);
    solve [reflexivity | discriminate].
Defined.

(** ** More on the branch name *)

Lemma Rewritten_length (s out : jsstring) :
  Rewritten s out ->
  List.length out <= List.length s /\ (s <> [] -> out <> []).
Proof.
  induction 1 as [| x s out _ [IH _] | x seg s out _ [IH _]]; simpl.
  - split; [lia | congruence].
  - split; [lia | discriminate].
  - rewrite length_app. split; [lia | discriminate].
Qed.

(** X14: sanitizing is idempotent, and the name that reaches
    [model.branch] is never empty and never longer than the name that was
    entered. *)
Theorem sanitize_idempotent (name : jsstring) :
  sanitize (sanitize name) = sanitize name
  /\ (name <> [] ->
      sanitize name <> []
      /\ List.length (sanitize name) <= List.length name).
Proof.
  split.
  - unfold sanitize at 1. unfold replaceAll.
    apply replaceAll_from_clean. apply sanitize_clean.
  - intros Hname.
    destruct (Rewritten_length (sanitize_Rewritten Hname)) as [Hlen Hne].
    split; [now apply Hne | exact Hlen].
Qed.

Lemma sanitize_idempotent_witness :
  sanitize (lit "fix/.lock file") <> []
  /\ List.length (sanitize (lit "fix/.lock file"))
     <= List.length (lit "fix/.lock file").
Proof.
  apply (proj2 (sanitize_idempotent (lit "fix/.lock file"))).
  discriminate.
Defined.

(** ** Properties of the items of the pick list *)

(** A starred class takes a whole run when what follows matches after it. *)
Lemma star_lens_run (p : char -> bool)
  (k : option char -> jsstring -> option (list nat)) (run_ t : jsstring)
  (ls : list nat) :
  forallb p run_ = true ->
  (forall prev, k prev t = Some ls) ->
  match t with [] => True | x :: _ => p x = false end ->
  forall prev, star_lens p k prev (run_ ++ t) = Some (List.length run_, ls).
Proof.
  intros Hrun Hk Ht.
  induction run_ as [| x run_ IH]; intros prev.
  - cbn [app List.length]. destruct t as [| y t'].
    + simpl. now rewrite Hk.
    + simpl. now rewrite Ht, Hk.
  - cbn [forallb] in Hrun. apply andb_prop in Hrun as [Hx Hrun].
    cbn [app star_lens List.length]. now rewrite Hx, (IH Hrun).
Qed.

(** Without a slash in the text, nothing that starts on a slash follows a
    run of code units that are not a slash. *)
Lemma star_lens_no_slash (rest : list item) (s : jsstring) :
  forallb notSlash s = true ->
  forall prev,
    star_lens notSlash (match_lens noflags (Chr 47%N :: rest)) prev s = None.
Proof.
  induction s as [| x s IH]; intros Hs prev; [reflexivity |].
  cbn [forallb] in Hs. apply andb_prop in Hs as [Hx Hs].
  cbn [star_lens]. rewrite Hx, (IH Hs).
  cbn [match_lens]. unfold chr_matches. cbn [ignoreCase noflags].
  unfold notSlash in Hx. apply negb_true_iff in Hx. now rewrite Hx.
Qed.

Lemma match_lens_chr (fl : flags) (c : char) (rest : list item)
  (prev : option char) (x : char) (s : jsstring) :
  match_lens fl (Chr c :: rest) prev (x :: s)
  = if chr_matches fl c x
    then option_map (cons 1) (match_lens fl rest (Some x) s)
    else None.
Proof. reflexivity. Qed.

Lemma match_lens_cls (fl : flags) (p : char -> bool) (rest : list item)
  (prev : option char) (x : char) (s : jsstring) :
  match_lens fl (Cls p :: rest) prev (x :: s)
  = if p x then option_map (cons 1) (match_lens fl rest (Some x) s)
    else None.
Proof. reflexivity. Qed.

Lemma match_lens_star (fl : flags) (p : char -> bool) (rest : list item)
  (prev : option char) (s : jsstring) :
  match_lens fl (Star p :: rest) prev s
  = option_map (fun nl => fst nl :: snd nl)
      (star_lens p (match_lens fl rest) prev s).
Proof. reflexivity. Qed.

Lemma match_lens_bol (fl : flags) (rest : list item) (prev : option char)
  (s : jsstring) :
  match_lens fl (Bol :: rest) prev s
  = if at_bol fl prev then option_map (cons 0) (match_lens fl rest prev s)
    else None.
Proof. reflexivity. Qed.

Lemma exec_from_search (fl : flags) (items : list item)
  (prev : option char) (s : jsstring) :
  exec_from fl items prev s
  = match match_lens fl items prev s with
    | Some ls => Some (0, ls)
    | None =>
        match s with
        | [] => None
        | c :: s' =>
            option_map (fun il => (S (fst il), snd il))
              (exec_from fl items (Some c) s')
        end
    end.
Proof. destruct s; reflexivity. Qed.

Lemma exec_from_anchored (items : list item) (s : jsstring) :
  forall c, exec_from noflags (Bol :: items) (Some c) s = None.
Proof.
  induction s as [| x s IH]; intros c; [reflexivity |].
  cbn [exec_from match_lens at_bol multiline noflags andb].
  now rewrite IH.
Qed.

(** The lengths of the items add up to the length of the match. *)
Lemma star_lens_sum (p : char -> bool)
  (k : option char -> jsstring -> option nat)
  (k' : option char -> jsstring -> option (list nat)) :
  (forall prev s, option_map (@list_sum) (k' prev s) = k prev s) ->
  forall s prev,
    option_map (fun nl => fst nl + list_sum (snd nl)) (star_lens p k' prev s)
    = star p k prev s.
Proof.
  intros Hk. induction s as [| x s IH]; intros prev; simpl.
  - rewrite <- Hk. now destruct (k' prev []).
  - destruct (p x).
    + rewrite <- (IH (Some x)).
      destruct (star_lens p k' (Some x) s) as [[n ls] |]; [reflexivity |].
      simpl. rewrite <- Hk. now destruct (k' prev (x :: s)).
    + rewrite <- Hk. now destruct (k' prev (x :: s)).
Qed.

Lemma match_lens_sum (fl : flags) (items : list item) :
  forall prev s,
    option_map (@list_sum) (match_lens fl items prev s)
    = match_items fl items prev s.
Proof.
  induction items as [| it rest IH]; intros prev s; [reflexivity |].
  destruct it as [c | p | p | |]; simpl.
  - destruct s as [| x s]; [reflexivity |].
    destruct (chr_matches fl c x); [| reflexivity].
    rewrite <- IH. now destruct (match_lens fl rest (Some x) s).
  - destruct s as [| x s]; [reflexivity |].
    destruct (p x); [| reflexivity].
    rewrite <- IH. now destruct (match_lens fl rest (Some x) s).
  - rewrite <- (star_lens_sum p _ _ IH).
    now destruct (star_lens p (match_lens fl rest) prev s) as [[n ls] |].
  - destruct (at_bol fl prev); [| reflexivity].
    rewrite <- IH. now destruct (match_lens fl rest prev s).
  - destruct (at_eol fl s); [| reflexivity].
    rewrite <- IH. now destruct (match_lens fl rest prev s).
Qed.

(** X15: the name under which a remote head is checked out: for a name made
    of a remote, a slash and a rest without line terminators, it is the
    rest, the first slash being the one that counts; a name without a
    slash is kept whole. *)
Theorem treeish_drops_remote (i : Item) :
  class i = CheckoutRemoteHeadItem ->
  (forall remote rest : jsstring,
      Hg.name (ref i) = Some (remote ++ 47%N :: rest) ->
      remote <> [] ->
      forallb notSlash remote = true ->
      forallb dot rest = true ->
      treeish i = Some rest)
  /\ (forall n : jsstring,
         Hg.name (ref i) = Some n ->
         n <> [] ->
         forallb notSlash n = true ->
         treeish i = Some n).
Proof.
  intros Hclass. unfold treeish. rewrite Hclass. split.
  - intros remote rest -> Hne Hremote Hrest.
    destruct remote as [| x remote]; [congruence |].
    cbn [forallb] in Hremote. apply andb_prop in Hremote as [Hx Hremote].
    cbn [app truthy].
    assert (Hgroup : star_lens dot (match_lens noflags [Eol]) (Some 47%N)
                       (rest ++ [])
                     = Some (List.length rest, [0]))
      by (apply star_lens_run; [assumption | reflexivity | exact I]).
    rewrite app_nil_r in Hgroup.
    assert (Htail : forall prev,
               match_lens noflags [Chr 47%N; Star dot; Eol] prev
                 (47%N :: rest)
               = Some [1; List.length rest; 0]).
    { intros prev. rewrite match_lens_chr. unfold chr_matches.
      change (ignoreCase noflags) with false. cbv iota.
      rewrite N.eqb_refl, match_lens_star.
      exact (f_equal
               (fun o => option_map (cons 1)
                           (option_map (fun nl => fst nl :: snd nl) o))
               Hgroup). }
    assert (Hstar : star_lens notSlash
                      (match_lens noflags [Chr 47%N; Star dot; Eol])
                      (Some x) (remote ++ 47%N :: rest)
                    = Some (List.length remote,
                            [1; List.length rest; 0]))
      by (apply star_lens_run; [assumption | exact Htail | reflexivity]).
    assert (Hexec : exec_from noflags remote_name None
                      (x :: remote ++ 47%N :: rest)
                    = Some (0, [0; 1; List.length remote; 1;
                                List.length rest; 0])).
    { unfold remote_name.
      rewrite exec_from_search, match_lens_bol. cbn [at_bol].
      rewrite match_lens_cls, Hx, match_lens_star, Hstar. reflexivity. }
    rewrite Hexec. unfold group_text.
    cbn [fst snd firstn skipn list_sum fold_right Nat.add].
    f_equal.
    replace (List.length remote + 1) with (S (List.length remote)) by lia.
    rewrite skipn_app, skipn_all2 by lia.
    replace (S (List.length remote) - List.length remote) with 1 by lia.
    cbn [app skipn].
    replace (List.length rest + 0) with (List.length rest) by lia.
    apply firstn_all.
  - intros n -> Hne Hn.
    destruct n as [| x n]; [congruence |]. cbn [truthy].
    cbn [forallb] in Hn. apply andb_prop in Hn as [Hx Hn].
    assert (Hexec : exec_from noflags remote_name None (x :: n) = None).
    { unfold remote_name.
      rewrite exec_from_search, match_lens_bol. cbn [at_bol].
      rewrite match_lens_cls, Hx, match_lens_star.
      rewrite (star_lens_no_slash [Star dot; Eol] n Hn (Some x)).
      cbn [option_map]. now rewrite exec_from_anchored. }
    now rewrite Hexec.
Qed.

Lemma treeish_drops_remote_witness :
  treeish {| class := CheckoutRemoteHeadItem;
             ref := {| Hg.type := Hg.RemoteHead;
                       Hg.name := Some (lit "origin" ++ 47%N
                                        :: lit "feature/login");
                       Hg.commit := None |} |}
  = Some (lit "feature/login").
Proof.
  apply (proj1 (@treeish_drops_remote
                  {| class := CheckoutRemoteHeadItem;
                     ref := {| Hg.type := Hg.RemoteHead;
                               Hg.name := Some (lit "origin" ++ 47%N
                                                :: lit "feature/login");
                               Hg.commit := None |} |} eq_refl)
           (lit "origin") (lit "feature/login"));
    solve [reflexivity | discriminate].
Defined.

(** ** Properties of staging and discarding *)

Lemma calls_since_note (d : Desk) (l : list Call) (d' : Desk) :
  calls d' = calls d ++ l -> calls_since d d' = l.
Proof.
  intros H. unfold calls_since. rewrite H, skipn_app, skipn_all.
  replace (List.length (calls d) - List.length (calls d)) with 0 by lia.
  reflexivity.
Qed.

Lemma calls_note (c : Call) (d : Desk) : calls (note c d) = calls d ++ [c].
Proof. reflexivity. Qed.

Lemma resources_in_spec (backend : Backend) (pass : ResourceGroup -> bool)
  (states : list ResourceState) (r : Resource) :
  In r (resources_in backend pass states) <->
  In (OfResource r) states /\ pass (resourceGroup backend r) = true.
Proof.
  unfold resources_in. rewrite in_flat_map. split.
  - intros [[x | u] [Hin Hr]]; [| destruct Hr].
    destruct (pass (resourceGroup backend x)) eqn:Hp; [| destruct Hr].
    destruct Hr as [<- | []]. auto.
  - intros [Hin Hp]. exists (OfResource r). rewrite Hp. split; [assumption |].
    now left.
Qed.

(** What a command that selects resources sends to the model. *)
Lemma selected_call (editor : Editor) (backend : Backend)
  (pass : ResourceGroup -> bool) (states : list ResourceState) (d : Desk)
  (rs : list Resource) :
  match states_or_active editor backend d states with
  | Some sts => resources_in backend pass sts = rs
  | None => False
  end ->
  rs <> [] ->
  Forall (fun r => pass (resourceGroup backend r) = true) rs
  /\ (states <> [] -> incl (map OfResource rs) states).
Proof.
  intros Hsel Hne. split.
  - apply Forall_forall. intros r Hr.
    destruct (states_or_active editor backend d states) as [sts |];
      [| destruct Hsel].
    subst rs. now apply resources_in_spec in Hr.
  - intros Hstates. destruct states as [| s states]; [congruence |].
    unfold states_or_active in Hsel. subst rs. intros x Hx.
    apply in_map_iff in Hx as [r [<- Hr]].
    now apply resources_in_spec in Hr.
Qed.

Lemma selected_of (editor : Editor) (backend : Backend)
  (states : list ResourceState) (d : Desk) (pass : ResourceGroup -> bool)
  (sts : list ResourceState) (r : Resource) (rs : list Resource) :
  states_or_active editor backend d states = Some sts ->
  resources_in backend pass sts = r :: rs ->
  Forall (fun x => pass (resourceGroup backend x) = true) (r :: rs)
  /\ (states <> [] -> incl (map OfResource (r :: rs)) states).
Proof.
  intros Hsts Hrs.
  apply (@selected_call editor backend pass states d (r :: rs));
    [now rewrite Hsts | discriminate].
Qed.

(** X16: [stage] and [unstage] reach the model only with a list that is not
    empty, so that they never act on everything as [stageAll] and
    [unstageAll] do; [stage] sends no resource of the staging group and
    [unstage] sends only such; of states that are given, only resources
    among them are sent. *)
Theorem stage_only_eligible (editor : Editor) (backend : Backend)
  (states : list ResourceState) (d : Desk) :
  (calls (snd (stage editor backend states d)) = calls d
   \/ exists rs : list Resource,
        rs <> []
        /\ calls (snd (stage editor backend states d))
           = calls d ++ [ModelStage rs]
        /\ Forall (fun r => resourceGroup backend r <> StagingGroup) rs
        /\ (states <> [] -> incl (map OfResource rs) states))
  /\ (calls (snd (unstage editor backend states d)) = calls d
      \/ exists rs : list Resource,
           rs <> []
           /\ calls (snd (unstage editor backend states d))
              = calls d ++ [ModelUnstage rs]
           /\ Forall (fun r => resourceGroup backend r = StagingGroup) rs
           /\ (states <> [] -> incl (map OfResource rs) states)).
Proof.
  split.
  - unfold stage.
    destruct (states_or_active editor backend d states) as [sts |] eqn:Hsts;
      [| now left].
    destruct (resources_in backend _ sts) as [| r rs] eqn:Hrs; [now left |].
    right. exists (r :: rs). split; [discriminate |].
    split; [reflexivity |].
    destruct (@selected_of editor backend states d _ _ _ _ Hsts Hrs)
      as [Hpass Hincl].
    split; [| exact Hincl].
    revert Hpass. apply Forall_impl.
    intros x Hx Heq. rewrite Heq in Hx. discriminate.
  - unfold unstage.
    destruct (states_or_active editor backend d states) as [sts |] eqn:Hsts;
      [| now left].
    destruct (resources_in backend _ sts) as [| r rs] eqn:Hrs; [now left |].
    right. exists (r :: rs). split; [discriminate |].
    split; [reflexivity |].
    destruct (@selected_of editor backend states d _ _ _ _ Hsts Hrs)
      as [Hpass Hincl].
    split; [| exact Hincl].
    revert Hpass. apply Forall_impl.
    intros x Hx. now destruct (resourceGroup backend x).
Qed.

(** X17: [model.clean] is reached only after the modal warning with the one
    item "Discard Changes" is answered with that item. [clean] then
    discards resources of the working-directory group, never none, and for
    several of them the warning gives their number; [cleanAll] discards
    the working-directory group as it is once the warning is answered. *)
Theorem clean_needs_confirmation (host : Host) (editor : Editor)
  (backend : Backend) (states : list ResourceState) (d : Desk)
  (rs : list Resource) :
  (In (ModelClean rs) (calls_since d (snd (clean host editor backend states d)))
   ->
   exists msg : jsstring,
     calls (snd (clean host editor backend states d))
     = calls d ++ [ShowWarningMessage msg true [lit "Discard Changes"];
                   ModelClean rs]
     /\ showMessage_reply backend
          (note (ShowWarningMessage msg true [lit "Discard Changes"]) d)
        = Some (lit "Discard Changes")
     /\ rs <> []
     /\ Forall (fun r => resourceGroup backend r = WorkingDirectoryGroup) rs
     /\ (1 < List.length rs ->
         msg = lit "Are you sure you want to discard changes in "
               ++ decimal (List.length rs) ++ lit " files?"))
  /\ (In (ModelClean rs) (calls_since d (snd (cleanAll backend d))) ->
      let warning :=
        ShowWarningMessage
          (lit "Are you sure you want to discard ALL changes?") true
          [lit "Discard Changes"] in
      calls (snd (cleanAll backend d)) = calls d ++ [warning; ModelClean rs]
      /\ showMessage_reply backend (note warning d)
         = Some (lit "Discard Changes")
      /\ rs = workingDirectoryGroup
                (groups (model_now backend (note warning d)))).
Proof.
  split.
  - unfold clean.
    destruct (states_or_active editor backend d states) as [sts |] eqn:Hsts;
      [| unfold snd, calls_since; rewrite skipn_all; intros []].
    destruct (resources_in backend _ sts) as [| r others] eqn:Hrs;
      [unfold snd, calls_since; rewrite skipn_all; intros [] |].
    set (msg := match others with [] => _ | _ :: _ => _ end).
    unfold andThen, ask_value, discard.
    destruct (showMessage_reply backend
                (note (ShowWarningMessage msg true [lit "Discard Changes"]) d))
      as [p |] eqn:Hreply.
    + destruct (JS.eqb p (lit "Discard Changes")) eqn:Hp.
      * apply eqb_eq in Hp. subst p. unfold ask, snd.
        rewrite (calls_since_note d
                   [ShowWarningMessage msg true [lit "Discard Changes"];
                    ModelClean (r :: others)])
          by (rewrite !calls_note, <- app_assoc; reflexivity).
        intros [H | [[= <-] | []]]; [discriminate |].
        exists msg. split; [now rewrite !calls_note, <- app_assoc |].
        split; [exact Hreply |]. split; [discriminate |].
        destruct (@selected_of editor backend states d _ _ _ _ Hsts Hrs)
          as [Hpass _].
        split.
        -- revert Hpass. apply Forall_impl.
           intros x Hx. now destruct (resourceGroup backend x).
        -- intros Hlen. unfold msg.
           destruct others; [simpl in Hlen; lia | reflexivity].
      * unfold done, snd.
        rewrite (calls_since_note d
                   [ShowWarningMessage msg true [lit "Discard Changes"]])
          by apply calls_note.
        intros [H | []]. discriminate.
    + unfold done, snd.
      rewrite (calls_since_note d
                 [ShowWarningMessage msg true [lit "Discard Changes"]])
        by apply calls_note.
      intros [H | []]. discriminate.
  - unfold cleanAll, andThen, ask_value, discard.
    set (warning := ShowWarningMessage _ true _).
    destruct (showMessage_reply backend (note warning d)) as [p |] eqn:Hreply.
    + destruct (JS.eqb p (lit "Discard Changes")) eqn:Hp.
      * apply eqb_eq in Hp. subst p. unfold ask, snd.
        rewrite (calls_since_note d
                   [warning;
                    ModelClean (workingDirectoryGroup
                                  (groups (model_now backend
                                             (note warning d))))])
          by (rewrite !calls_note, <- app_assoc; reflexivity).
        intros [H | [[= <-] | []]]; [discriminate |].
        cbv zeta. fold warning.
        split; [now rewrite !calls_note, <- app_assoc |].
        split; reflexivity.
      * unfold done, snd.
        rewrite (calls_since_note d [warning]) by apply calls_note.
        intros [H | []]. discriminate.
    + unfold done, snd.
      rewrite (calls_since_note d [warning]) by apply calls_note.
      intros [H | []]. discriminate.
Qed.

Lemma clean_needs_confirmation_witness :
  showMessage_reply sample_backend
    (note (ShowWarningMessage
             (lit "Are you sure you want to discard ALL changes?") true
             [lit "Discard Changes"]) empty_desk)
  = Some (lit "Discard Changes").
Proof.
  apply (proj2 (@clean_needs_confirmation quiet_host sample_editor
                  sample_backend [] empty_desk
                  (workingDirectoryGroup two_changes))).
  right. left. reflexivity.
Defined.

Lemma stage_only_eligible_witness :
  calls (snd (stage sample_editor sample_backend [] empty_desk)) = []
  \/ exists rs : list Resource,
       rs <> []
       /\ calls (snd (stage sample_editor sample_backend [] empty_desk))
          = [] ++ [ModelStage rs]
       /\ Forall (fun r => resourceGroup sample_backend r <> StagingGroup) rs
       /\ (@nil ResourceState <> [] -> incl (map OfResource rs) []).
Proof.
  exact (proj1 (stage_only_eligible sample_editor sample_backend []
                  empty_desk)).
Defined.

(** ** Properties of pushing, undoing and updating *)

(** X18: [push] ends as the engine does, while [pushTo] does not wait for
    the engine: it is fulfilled whatever becomes of the push. [pushTo]
    pushes to the name of a configured path only, and without a configured
    path neither of them reaches the engine. *)
Theorem pushTo_does_not_wait (backend : Backend) (d : Desk) :
  (exists d', pushTo backend d = (Fulfilled tt, d'))
  /\ (paths (model_now backend d) <> [] ->
      push backend d
      = (model_reply backend (note (ModelPush None) d),
         note (ModelPush None) d))
  /\ (forall remote,
         In (ModelPush remote) (calls_since d (snd (pushTo backend d))) ->
         exists p, In p (paths (model_now backend d))
                   /\ remote = Some (Hg.path_name p))
  /\ (paths (model_now backend d) = [] ->
      forall remote,
        ~ In (ModelPush remote) (calls_since d (snd (push backend d)))
        /\ ~ In (ModelPush remote) (calls_since d (snd (pushTo backend d)))).
Proof.
  split; [| split; [| split]].
  - unfold pushTo.
    destruct (paths (model_now backend d)) as [| p ps]; [now eexists |].
    unfold andThen, ask_value.
    destruct (showQuickPick_reply backend _) as [position |];
      [| now eexists].
    destruct (nth_error _ position); now eexists.
  - intros Hpaths. unfold push.
    destruct (paths (model_now backend d)); [congruence | reflexivity].
  - intros remote. unfold pushTo.
    destruct (paths (model_now backend d)) as [| p ps] eqn:Hpaths.
    + unfold fire, snd.
      rewrite (calls_since_note d [ShowWarningMessage _ false []])
        by apply calls_note.
      intros [H | []]. discriminate.
    + unfold andThen, ask_value.
      set (picks := map _ (p :: ps)).
      set (quick := ShowQuickPick picks _).
      destruct (showQuickPick_reply backend (note quick d))
        as [position |].
      * destruct (nth_error picks position) as [chosen |] eqn:Hnth.
        -- unfold fire, snd.
           rewrite (calls_since_note d [quick; ModelPush (Some (fst chosen))])
             by (rewrite !calls_note, <- app_assoc; reflexivity).
           intros [H | [[= <-] | []]]; [discriminate |].
           apply nth_error_In in Hnth. unfold picks in Hnth.
           apply in_map_iff in Hnth as [q [<- Hq]].
           exists q. split; [exact Hq | reflexivity].
        -- unfold done, snd.
           rewrite (calls_since_note d [quick]) by apply calls_note.
           intros [H | []]. discriminate.
      * unfold done, snd.
        rewrite (calls_since_note d [quick]) by apply calls_note.
        intros [H | []]. discriminate.
  - intros Hpaths remote. unfold push, pushTo. rewrite Hpaths.
    unfold fire, snd.
    rewrite (calls_since_note d [ShowWarningMessage _ false []])
      by apply calls_note.
    split; intros [H | []]; discriminate.
Qed.

Lemma pushTo_does_not_wait_witness :
  push failing_backend empty_desk
  = (Rejected (Value commit_failure), note (ModelPush None) empty_desk)
  /\ fst (pushTo failing_backend empty_desk) = Fulfilled tt.
Proof.
  split.
  - apply (proj1 (proj2 (pushTo_does_not_wait failing_backend empty_desk))).
    discriminate.
  - destruct (proj1 (pushTo_does_not_wait failing_backend empty_desk))
      as [d' ->].
    reflexivity.
Defined.

(** X19: [undoCommit] does nothing without a parent that has a commit.
    With one, it reads the commit at HEAD, resets to its parent and, both
    done, leaves the message of that commit in the input box; when either
    fails, it is rejected and the input box is left as it was. *)
Theorem undoCommit_restores_message (backend : Backend) (d : Desk) :
  (match parent (model_now backend d) with
   | Some HEAD => truthy_opt (Hg.commit HEAD) = false
   | None => True
   end ->
   undoCommit backend d = (Fulfilled tt, d))
  /\ (forall (HEAD : Hg.Ref) (undone : Hg.Commit),
         parent (model_now backend d) = Some HEAD ->
         truthy_opt (Hg.commit HEAD) = true ->
         getCommit_reply backend (note (ModelGetCommit (lit "HEAD")) d)
         = Fulfilled undone ->
         model_reply backend
           (note (ModelReset (lit "HEAD~"))
              (note (ModelGetCommit (lit "HEAD")) d))
         = Fulfilled tt ->
         undoCommit backend d
         = (Fulfilled tt,
            {| box := Hg.message undone;
               calls := calls d ++ [ModelGetCommit (lit "HEAD");
                                    ModelReset (lit "HEAD~")] |}))
  /\ (forall e, fst (undoCommit backend d) = Rejected e ->
                box (snd (undoCommit backend d)) = box d).
Proof.
  unfold undoCommit. split; [| split].
  - destruct (parent (model_now backend d)) as [HEAD |]; [| reflexivity].
    now intros ->.
  - intros HEAD undone -> -> Hcommit Hreset.
    unfold andThen, ask. rewrite Hcommit, Hreset.
    unfold set_box. rewrite !calls_note, <- app_assoc. reflexivity.
  - intros e.
    destruct (parent (model_now backend d)) as [HEAD |]; [| discriminate].
    destruct (truthy_opt (Hg.commit HEAD)); [| discriminate].
    unfold andThen, ask.
    destruct (getCommit_reply backend _); [| reflexivity].
    destruct (model_reply backend _); [discriminate | reflexivity].
Qed.

Lemma undoCommit_restores_message_witness :
  undoCommit bare_backend empty_desk = (Fulfilled tt, empty_desk)
  /\ box (snd (undoCommit sample_backend empty_desk)) = lit "first"
  /\ box (snd (undoCommit failing_backend
                 {| box := lit "draft"; calls := [] |})) = lit "draft".
Proof.
  split; [| split].
  - apply (proj1 (undoCommit_restores_message bare_backend empty_desk)).
    exact I.
  - rewrite (proj1 (proj2 (undoCommit_restores_message sample_backend
                             empty_desk))
               _ {| Hg.message := lit "first" |} eq_refl eq_refl eq_refl
               eq_refl).
    reflexivity.
  - apply (proj2 (proj2 (undoCommit_restores_message failing_backend
                           {| box := lit "draft"; calls := [] |}))
             (Value commit_failure)).
    reflexivity.
Defined.

Lemma update_picks_spec (backend : Backend) (d : Desk) (i : Item) :
  In i (update_picks backend d) ->
  In (ref i) (refs (model_now backend d))
  /\ treeish i = Hg.name (ref i)
  /\ (Hg.type (ref i) = Hg.Branch
      \/ Hg.type (ref i) = Hg.Tag
         /\ match updateType backend with
            | Some t => t = [] \/ t = lit "all" \/ t = lit "tags"
            | None => True
            end).
Proof.
  unfold update_picks. intros Hin. apply in_app_or in Hin as [Hin | Hin];
    apply in_map_iff in Hin as [r [<- Hr]]; cbn [ref class treeish].
  - apply filter_In in Hr as [Hr Ht]. repeat split; [assumption |].
    left. unfold is_type in Ht. now destruct (Hg.type r).
  - destruct (JS.eqb _ (lit "all") || JS.eqb _ (lit "tags")) eqn:Hinc;
      [| destruct Hr].
    apply filter_In in Hr as [Hr Ht]. repeat split; [assumption |].
    right. split; [unfold is_type in Ht; now destruct (Hg.type r) |].
    destruct (updateType backend) as [t |]; [| exact I].
    destruct t as [| c t]; [now left |]. right. cbn [truthy] in Hinc.
    apply orb_prop in Hinc as [H | H]; apply eqb_eq in H; auto.
Qed.

(** X20: [update] checks out nothing but the name of a branch or of a tag
    among the refs of the model, and never an empty name; a tag only when
    the setting [updateType] is missing, empty, "all" or "tags". *)
Theorem update_checks_out_a_ref (backend : Backend) (d : Desk)
  (n : jsstring) :
  In (ModelCheckout n) (calls_since d (snd (update backend d))) ->
  n <> []
  /\ exists r : Hg.Ref,
       In r (refs (model_now backend d))
       /\ Hg.name r = Some n
       /\ (Hg.type r = Hg.Branch
           \/ Hg.type r = Hg.Tag
              /\ match updateType backend with
                 | Some t => t = [] \/ t = lit "all" \/ t = lit "tags"
                 | None => True
                 end).
Proof.
  unfold update, andThen, ask_value.
  set (quick := ShowQuickPick _ _).
  destruct (showQuickPick_reply backend (note quick d)) as [position |].
  - destruct (nth_error (update_picks backend d) position) as [i |] eqn:Hnth.
    + apply nth_error_In, update_picks_spec in Hnth
        as [Hin [Htree Htype]].
      unfold run. rewrite Htree.
      destruct (Hg.name (ref i)) as [m |] eqn:Hname.
      * destruct (truthy m) eqn:Hm.
        -- unfold ask, snd.
           rewrite (calls_since_note d [quick; ModelCheckout m])
             by (rewrite !calls_note, <- app_assoc; reflexivity).
           intros [H | [[= <-] | []]]; [discriminate |].
           split; [intros ->; discriminate |].
           exists (ref i). auto.
        -- unfold done, snd.
           rewrite (calls_since_note d [quick]) by apply calls_note.
           intros [H | []]. discriminate.
      * unfold done, snd.
        rewrite (calls_since_note d [quick]) by apply calls_note.
        intros [H | []]. discriminate.
    + unfold done, snd.
      rewrite (calls_since_note d [quick]) by apply calls_note.
      intros [H | []]. discriminate.
  - unfold done, snd.
    rewrite (calls_since_note d [quick]) by apply calls_note.
    intros [H | []]. discriminate.
Qed.

Lemma update_checks_out_a_ref_witness :
  lit "default" <> []
  /\ exists r : Hg.Ref,
       In r (refs sample_repository)
       /\ Hg.name r = Some (lit "default")
       /\ (Hg.type r = Hg.Branch
           \/ Hg.type r = Hg.Tag /\ True).
Proof.
  apply (@update_checks_out_a_ref sample_backend empty_desk (lit "default")).
  right. left. reflexivity.
Defined.

(** ** Properties of cloning *)

Ltac settle_calls d :=
  unfold fire, done, snd;
  erewrite (calls_since_note d)
    by (rewrite ?calls_note, <- ?app_assoc; reflexivity).

(** X21: every run of [clone] sends exactly one telemetry event named
    "clone"; [hg.clone] is called only with the url and the parent
    directory that were entered, neither of them empty; and when [clone]
    is rejected, it is with the error of that call of [hg.clone], the
    outcome "directory_not_empty" or "error" being reported last. *)
Theorem clone_reports_once (backend : Backend) (d : Desk) :
  let askUrl := ShowInputBoxPrompt (lit "Repository URL") None in
  let askParent :=
    ShowInputBoxPrompt (lit "Parent Directory") (Some (homedir backend)) in
  let entered_url := showInputBoxPrompt_reply backend (note askUrl d) in
  let entered_parent :=
    showInputBoxPrompt_reply backend (note askParent (note askUrl d)) in
  count_calls is_cloneTelemetry (calls_since d (snd (clone backend d))) = 1
  /\ (forall u p,
         In (HgClone u p) (calls_since d (snd (clone backend d))) ->
         entered_url = Some u /\ entered_parent = Some p
         /\ u <> [] /\ p <> [])
  /\ (forall e,
         fst (clone backend d) = Rejected e ->
         exists u p,
           entered_url = Some u /\ entered_parent = Some p
           /\ clone_reply backend
                (note (HgClone u p) (note askParent (note askUrl d)))
              = Rejected e
           /\ exists outcome : string,
                (outcome = "directory_not_empty"%string
                 \/ outcome = "error"%string)
                /\ calls_since d (snd (clone backend d))
                   = [askUrl; askParent; HgClone u p;
                      SetStatusBarMessage (lit "Cloning hg repository...");
                      clone_telemetry outcome]).
Proof.
  intros askUrl askParent entered_url entered_parent.
  unfold clone, andThen, ask_value.
  fold askUrl. fold askParent. fold entered_url.
  destruct entered_url as [u |]; [destruct (truthy u) eqn:Hu |].
  2, 3: cbn [truthy_opt negb]; try rewrite Hu; cbn [negb];
    settle_calls d;
    (split; [reflexivity |]);
    (split; [intros u' p' [H | [H | []]]; discriminate |]);
    intros e He; discriminate.
  cbn [truthy_opt]. rewrite Hu. cbn [negb].
  fold entered_parent.
  destruct entered_parent as [p |]; [destruct (truthy p) eqn:Hp |].
  2, 3: cbn [truthy_opt negb]; try rewrite Hp; cbn [negb];
    settle_calls d;
    (split; [reflexivity |]);
    (split; [intros u' p' [H | [H | [H | []]]]; discriminate |]);
    intros e He; discriminate.
  cbn [truthy_opt]. rewrite Hp. cbn [negb].
  unfold or_else. rewrite Hu, Hp.
  assert (Hup : u <> [] /\ p <> [])
    by (split; intros ->; discriminate).
  destruct (clone_reply backend
              (note (HgClone u p) (note askParent (note askUrl d))))
    as [repositoryPath | err] eqn:Hclone.
  - destruct (showMessage_reply backend _) as [r |];
      [destruct (JS.eqb r (lit "Open Repository")) |];
      settle_calls d;
      (split; [reflexivity |]);
      (split;
       [ intros u' p' Hin; simpl in Hin; decompose [or] Hin;
         try discriminate; try contradiction;
         match goal with
         | H : HgClone _ _ = HgClone _ _ |- _ => injection H as <- <-
         end; tauto
       | intros e He; discriminate ]).
  - destruct (test noflags directory_not_empty _);
      settle_calls d;
      (split; [reflexivity |]);
      (split;
       [ intros u' p' Hin; simpl in Hin; decompose [or] Hin;
         try discriminate; try contradiction;
         match goal with
         | H : HgClone _ _ = HgClone _ _ |- _ => injection H as <- <-
         end; tauto
       | intros e [= <-]; exists u, p;
         split; [reflexivity |]; split; [reflexivity |];
         split; [exact Hclone |] ]).
    + exists "directory_not_empty"%string. split; [now left | reflexivity].
    + exists "error"%string. split; [now right | reflexivity].
Qed.

Lemma clone_reports_once_witness :
  exists u p,
    Some (lit "/srv/hg") = Some u /\ Some (lit "/srv/hg") = Some p
    /\ clone_reply failing_backend
         (note (HgClone u p)
            (note (ShowInputBoxPrompt (lit "Parent Directory")
                     (Some (lit "/home/user")))
               (note (ShowInputBoxPrompt (lit "Repository URL") None)
                  empty_desk)))
       = Rejected (Value commit_failure)
    /\ exists outcome : string,
         (outcome = "directory_not_empty"%string \/ outcome = "error"%string)
         /\ calls_since empty_desk (snd (clone failing_backend empty_desk))
            = [ShowInputBoxPrompt (lit "Repository URL") None;
               ShowInputBoxPrompt (lit "Parent Directory")
                 (Some (lit "/home/user"));
               HgClone u p;
               SetStatusBarMessage (lit "Cloning hg repository...");
               clone_telemetry outcome].
Proof.
  apply (proj2 (proj2 (clone_reports_once failing_backend empty_desk))).
  reflexivity.
Defined.

(** ** Sample runs of the lookup and of the hint *)

Lemma getSCMResource_first_match_witness :
  getSCMResource sample_editor two_changes None
  = Some (resource_at MODIFIED "/repo/a.txt").
Proof.
  apply (proj2 (getSCMResource_first_match sample_editor two_changes None
                  (resource_at MODIFIED "/repo/a.txt"))).
  exists (file_uri "/repo/a.txt"). split; [reflexivity |].
  split; [now right |].
  exists [resource_at ADDED "/repo/b.txt"], [].
  split; [reflexivity |]. split; [reflexivity |].
  constructor; [discriminate | constructor].
Defined.

Lemma hint_is_one_line_witness :
  lit "abort: nothing changed" <> []
  /\ forallb (fun c => negb (is_break c)) (lit "abort: nothing changed")
     = true.
Proof.
  apply (proj1 (hint_is_one_line commit_failure)
           (lit "abort: nothing changed")).
  reflexivity.
Defined.

(** ** The failure of a handler *)






(** The dialog of an error without any diagnostic text is made of
    [String(err)]. *)
Example errorMessage_object :
  errorMessage {| hgErrorCode := None; stderr := Some [];
                  message := None; toString := lit "[object Object]" |}
  = lit "Hg: [object Object]".
Proof. reflexivity. Qed.

(** What the handler does with [undefined], [null] and an object whose
    text is not a string: it throws, so that its promise is rejected and
    nothing is shown. *)
Lemma onRejected_throws (host : Host) (runtime : Runtime) (w : World) :
  onRejected host runtime Undefined w
  = (Rejected (Value (TypeError (property_of_undefined runtime))), w)
  /\ onRejected host runtime Null w
     = (Rejected (Value (TypeError (property_of_null runtime))), w)
  /\ (forall shown,
         onRejected host runtime (Untyped None shown) w
         = (Rejected (Value (TypeError (not_a_function runtime))), w)).
Proof. repeat split. Qed.

(** C9, at a handler whose promise is rejected with [undefined] or with
    [null], and at a method that throws before it returns: the handler of
    [result.catch] throws a TypeError on [err.hgErrorCode], so that the
    promise of the wrapper is rejected and no dialog is shown; and what the
    method throws is thrown by the wrapper itself. *)
Theorem dispatch_lets_failures_through :
  createCommand quiet_host v8 (Some no_changes) (lit "hg.refresh")
    (lit "refresh") (rejecting_method Undefined) false tt empty_world
  = (ReturnedPromise
       (Rejected
          (Value (TypeError
                    (lit "Cannot read property 'hgErrorCode' of undefined")))),
     entered (lit "hg.refresh") (lit "refresh") empty_world)
  /\ createCommand quiet_host v8 (Some no_changes) (lit "hg.refresh")
       (lit "refresh") (rejecting_method Null) false tt empty_world
     = (ReturnedPromise
          (Rejected
             (Value (TypeError
                       (lit "Cannot read property 'hgErrorCode' of null")))),
        entered (lit "hg.refresh") (lit "refresh") empty_world)
  /\ createCommand quiet_host v8 (Some no_changes) (lit "hg.showOutput")
       (lit "showOutput") (throwing_method (Value commit_failure)) false tt
       empty_world
     = (Threw (Value commit_failure),
        entered (lit "hg.showOutput") (lit "showOutput") empty_world).
Proof. repeat split. Qed.
